(** * Beats & Repeats Spotify test page: the PKCE login, the playback device
      session and the audio-capture probes of [src/App.js]

    The component [SpotifyReactTest] is embedded as state-passing code over
    a [World]: the React state of the component, the browser's session
    storage and location, and a chronological trace of the calls made to
    the platform (network, navigation, media devices, the vendor player).
    What the platform answers to a call (an HTTP response, a media
    stream, the state of the player) is an input of the function that
    awaits it; the random source, the clock and SHA-256 are part of a
    [Platform] that does not change.  The definitions come first; the
    properties of the specification follow. *)

From Stdlib Require Import String Ascii List NArith Lia Bool DecimalString QArith.
From stdpp Require Import gmap strings.
Import ListNotations.

Local Open Scope string_scope.
Local Open Scope N_scope.

(** ** JavaScript strings

    A string is a sequence of code units below 256.  Literals with
    characters outside Latin-1, and text decoded from a query string,
    stand for their UTF-8 bytes; such strings are logged, displayed or
    sent as they are. *)

Definition str_cat (a b : string) : string := String.append a b.
Infix "^^" := str_cat (at level 35, right associativity) : string_scope.

(** [s.replace(/c/g, r)]: every occurrence of the character [c] becomes
    the string [r]. *)
Fixpoint replace_all (c : ascii) (r : string) (s : string) : string :=
  match s with
  | EmptyString => EmptyString
  | String x s' =>
      if Ascii.eqb x c then r ^^ replace_all c r s'
      else String x (replace_all c r s')
  end.

(** Truthiness of a value that is a string, [null] or [undefined]. *)
Definition truthy (v : option string) : bool :=
  match v with
  | Some (String _ _) => true
  | Some EmptyString => false
  | None => false
  end.

(** A value interpolated in a template literal. *)
Definition interpolate (v : option string) : string :=
  match v with
  | Some s => s
  | None => "undefined"
  end.

(** Decimal rendering of a number in a template literal. *)
Definition string_of_nat (n : nat) : string :=
  NilEmpty.string_of_uint (Nat.to_uint n).

(** ** Platform: [btoa], [TextEncoder], [String.fromCharCode] *)

Module Base64.

Definition alphabet : string :=
  "ABCDEFGHIJKLMNOPQRSTUVWXYZabcdefghijklmnopqrstuvwxyz0123456789+/".

Definition url_alphabet : string :=
  "ABCDEFGHIJKLMNOPQRSTUVWXYZabcdefghijklmnopqrstuvwxyz0123456789-_".

Definition pad : ascii := "="%char.

Definition char_at (table : string) (n : N) : ascii :=
  match String.get (N.to_nat n) table with
  | Some c => c
  | None => pad
  end.

(** The four 6-bit groups of three octets [a b c] (as numbers). *)
Definition sextet0 (a : N) : N := a / 4.
Definition sextet1 (a b : N) : N := (a mod 4) * 16 + b / 16.
Definition sextet2 (b c : N) : N := (b mod 16) * 4 + c / 64.
Definition sextet3 (c : N) : N := c mod 64.

(** Encoding of a binary string with a given table; [padding] says
    whether the last group is filled up with [=]. *)
Fixpoint encode (table : string) (padding : bool) (s : string) : string :=
  match s with
  | EmptyString => EmptyString
  | String a EmptyString =>
      let a := N_of_ascii a in
      String (char_at table (sextet0 a))
        (String (char_at table (sextet1 a 0))
           (if padding then String pad (String pad EmptyString)
            else EmptyString))
  | String a (String b EmptyString) =>
      let a := N_of_ascii a in
      let b := N_of_ascii b in
      String (char_at table (sextet0 a))
        (String (char_at table (sextet1 a b))
           (String (char_at table (sextet2 b 0))
              (if padding then String pad EmptyString else EmptyString)))
  | String a (String b (String c rest)) =>
      let a := N_of_ascii a in
      let b := N_of_ascii b in
      let c := N_of_ascii c in
      String (char_at table (sextet0 a))
        (String (char_at table (sextet1 a b))
           (String (char_at table (sextet2 b c))
              (String (char_at table (sextet3 c))
                 (encode table padding rest))))
  end.

(** [window.btoa]: RFC 4648 section 4, with padding. *)
Definition btoa (s : string) : string := encode alphabet true s.

(** The position of a character in a table. *)
Fixpoint index (table : string) (c : ascii) : N :=
  match table with
  | EmptyString => 0
  | String x rest => if Ascii.eqb x c then 0 else N.succ (index rest c)
  end.

(** The 6-bit values. *)
Definition sextets : list N := map N.of_nat (seq 0 64).

End Base64.

(** An octet, the element of a [Uint8Array]. *)
Abbreviation byte := Byte.byte.

(** [String.fromCharCode.apply(null, array)] for a [Uint8Array]. *)
Definition fromCharCode (array : list byte) : string :=
  string_of_list_byte array.

(** [new TextEncoder().encode(s)]: UTF-8, for code units below 256. *)
Definition utf8_unit (c : ascii) : list byte :=
  let n := N_of_ascii c in
  if n <? 128 then [byte_of_ascii c]
  else [byte_of_ascii (ascii_of_N (192 + n / 64));
        byte_of_ascii (ascii_of_N (128 + n mod 64))].

Definition TextEncoder_encode (s : string) : list byte :=
  flat_map utf8_unit (list_ascii_of_string s).

(** The base64url encoding without padding of RFC 4648 section 5, as the
    specification names it. *)
Definition base64url (bytes : list byte) : string :=
  Base64.encode Base64.url_alphabet false (string_of_list_byte bytes).

(** [encodeURIComponent]: every octet of the UTF-8 form is escaped except
    letters, digits and [- _ . ! ~ * ' ( )]. *)
Definition is_unreserved (c : ascii) : bool :=
  let n := N_of_ascii c in
  ((65 <=? n) && (n <=? 90)) || ((97 <=? n) && (n <=? 122))
  || ((48 <=? n) && (n <=? 57))
  || existsb (Ascii.eqb c) (list_ascii_of_string "-_.!~*'()").

Definition hex_digit (n : N) : ascii :=
  Base64.char_at "0123456789ABCDEF" n.

Definition percent_escape (b : byte) : string :=
  let n := Byte.to_N b in
  String "%" (String (hex_digit (n / 16)) (String (hex_digit (n mod 16)) EmptyString)).

Fixpoint encodeURIComponent (s : string) : string :=
  match s with
  | EmptyString => EmptyString
  | String c s' =>
      (if is_unreserved c then String c EmptyString
       else fold_right (fun b acc => percent_escape b ^^ acc) EmptyString (utf8_unit c))
      ^^ encodeURIComponent s'
  end.

(** ** Platform: [URLSearchParams]

    The parser of the URL standard for [application/x-www-form-urlencoded]:
    a leading [?] is dropped, the rest is cut at every [&], empty pieces
    are skipped, each piece is cut at its first [=], [+] stands for a
    space and [%HH] for an octet, and the octets of a name or a value are
    then decoded as UTF-8.  Decoded text is kept as the UTF-8 octets of
    its characters, as literals are; what the decoder changes are the
    octets that are not well-formed UTF-8, each maximal ill-formed run
    becoming U+FFFD. *)

Fixpoint split_on (sep : ascii) (s : string) : list string :=
  match s with
  | EmptyString => [EmptyString]
  | String c s' =>
      if Ascii.eqb c sep then EmptyString :: split_on sep s'
      else match split_on sep s' with
           | piece :: pieces => String c piece :: pieces
           | [] => [String c EmptyString]
           end
  end.

Fixpoint cut_at (sep : ascii) (s : string) : string * string :=
  match s with
  | EmptyString => (EmptyString, EmptyString)
  | String c s' =>
      if Ascii.eqb c sep then (EmptyString, s')
      else let '(a, b) := cut_at sep s' in (String c a, b)
  end.

Definition hex_value (c : ascii) : option N :=
  let n := N_of_ascii c in
  if (48 <=? n) && (n <=? 57) then Some (n - 48)
  else if (65 <=? n) && (n <=? 70) then Some (n - 55)
  else if (97 <=? n) && (n <=? 102) then Some (n - 87)
  else None.

Fixpoint percent_decode (s : string) : string :=
  match s with
  | EmptyString => EmptyString
  | String c s' =>
      let literal := String c (percent_decode s') in
      if Ascii.eqb c "%" then
        match s' with
        | String h (String l rest) =>
            match hex_value h, hex_value l with
            | Some hv, Some lv =>
                String (ascii_of_N (hv * 16 + lv)) (percent_decode rest)
            | _, _ => literal
            end
        | _ => literal
        end
      else literal
  end.

Module Utf8.

(** The UTF-8 decoder of the Encoding standard, over text kept as UTF-8
    octets.  [pending] holds the octets of the sequence being read,
    [needed] the number of continuation octets still to come, [lower]
    and [upper] the range the next one must lie in. *)
Record state : Type := {
  pending : string;
  needed : nat;
  lower : N;
  upper : N
}.

Definition start : state :=
  {| pending := EmptyString; needed := 0; lower := 128; upper := 191 |}.

(** U+FFFD, as its UTF-8 octets. *)
Definition replacement_character : string :=
  String (ascii_of_N 239) (String (ascii_of_N 191) (String (ascii_of_N 189) EmptyString)).

(** An octet met when no sequence is being read. *)
Definition lead_octet (c : ascii) : string * state :=
  let n := N_of_ascii c in
  let lead (k : nat) (lo hi : N) :=
    (EmptyString,
     {| pending := String c EmptyString; needed := k; lower := lo; upper := hi |}) in
  if n <=? 127 then (String c EmptyString, start)
  else if (194 <=? n) && (n <=? 223) then lead 1%nat 128 191
  else if (224 <=? n) && (n <=? 239) then
    lead 2%nat (if n =? 224 then 160 else 128) (if n =? 237 then 159 else 191)
  else if (240 <=? n) && (n <=? 244) then
    lead 3%nat (if n =? 240 then 144 else 128) (if n =? 244 then 143 else 191)
  else (replacement_character, start).

(** One octet: what is put out and the state after it.  An octet that
    cannot continue the sequence being read ends it with U+FFFD and is
    read again as the start of a sequence. *)
Definition step (st : state) (c : ascii) : string * state :=
  let n := N_of_ascii c in
  match needed st with
  | O => lead_octet c
  | S k =>
      if (lower st <=? n) && (n <=? upper st) then
        match k with
        | O => (pending st ^^ String c EmptyString, start)
        | S _ =>
            (EmptyString,
             {| pending := pending st ^^ String c EmptyString;
                needed := k; lower := 128; upper := 191 |})
        end
      else
        let '(out, st') := lead_octet c in
        (replacement_character ^^ out, st')
  end.

Fixpoint run (st : state) (s : string) : string :=
  match s with
  | EmptyString =>
      match needed st with
      | O => EmptyString
      | S _ => replacement_character
      end
  | String c rest =>
      let '(out, st') := step st c in
      out ^^ run st' rest
  end.

Definition decode (s : string) : string := run start s.

End Utf8.

Definition form_decode (s : string) : string :=
  Utf8.decode (percent_decode (replace_all "+" " " s)).

Definition URLSearchParams (search : string) : list (string * string) :=
  let query := match search with
               | String "?" rest => rest
               | other => other
               end in
  map (fun piece => let '(n, v) := cut_at "=" piece in
                    (form_decode n, form_decode v))
      (List.filter (fun piece => negb (String.eqb piece EmptyString)) (split_on "&" query)).

(** [urlParams.get(name)]: the value of the first pair with that name, or
    [null]. *)
Fixpoint params_get (name : string) (params : list (string * string))
  : option string :=
  match params with
  | [] => None
  | (n, v) :: rest => if String.eqb n name then Some v else params_get name rest
  end.

(** ** Values exchanged with the platform *)

(** The [type] of a log entry. *)
Module Severity.
Inductive t : Type := info | error | success | warning.

(** [type.toUpperCase()]. *)
Definition toUpperCase (s : t) : string :=
  match s with
  | info => "INFO"
  | error => "ERROR"
  | success => "SUCCESS"
  | warning => "WARNING"
  end.
End Severity.

Record LogEntry : Type := {
  timestamp : string;
  message : string;
  type : Severity.t
}.

(** A JavaScript [Error]; only its [message] is ever read. *)
Record Error : Type := { error_message : string }.

(** How a call into the platform ends: it returns (an awaited promise is
    fulfilled) or it throws (the promise is rejected). *)
Inductive Outcome (A : Type) : Type :=
  | Returns (v : A)
  | Throws (e : Error).
Arguments Returns {A} v.
Arguments Throws {A} e.

(** What the body of a response of the token endpoint parses to, by the
    properties the code reads.  A property is [undefined] when the value
    has no such property, [null], or a string, as the endpoint sends
    them. *)
Module TokenJson.
Inductive value : Type :=
  | undefined
  | null
  | text (s : string).

Record t : Type := {
  access_token : value;
  error : value;
  error_description : value
}.

(** Truthiness of a property. *)
Definition truthy (v : value) : bool :=
  match v with
  | text (String _ _) => true
  | _ => false
  end.

(** A property interpolated in a template literal. *)
Definition interpolate (v : value) : string :=
  match v with
  | undefined => "undefined"
  | null => "null"
  | text s => s
  end.

(** [a || b] on two properties. *)
Definition or (a b : value) : value :=
  if truthy a then a else b.

(** A property as the string the component keeps. *)
Definition string_of (v : value) : option string :=
  match v with
  | text s => Some s
  | _ => None
  end.
End TokenJson.

Record Request : Type := {
  url : string;
  method : string;
  headers : list (string * string);
  body : string
}.

(** A [Response]: its status and how [response.json()] ends.  The value
    it is fulfilled with is [None] for the JSON text [null], on which
    reading a property throws; every other JSON value is read through
    its properties. *)
Record Response : Type := {
  status : nat;
  json : Outcome (option TokenJson.t)
}.

Definition ok (r : Response) : bool :=
  (200 <=? status r)%nat && (status r <=? 299)%nat.

Inductive TrackKind : Type := audio | video.

Record MediaStreamTrack : Type := {
  track_id : nat;
  kind : TrackKind
}.

Record MediaStream : Type := { getTracks : list MediaStreamTrack }.

Definition getAudioTracks (s : MediaStream) : list MediaStreamTrack :=
  List.filter (fun t => match kind t with audio => true | video => false end)
    (getTracks s).

(** The payload of [player_state_changed]. *)
Record Artist : Type := { artist_name : string }.

Record Track : Type := {
  track_name : string;
  artists : list Artist
}.

Record TrackWindow : Type := { current_track : option Track }.

Record WebPlaybackState : Type := {
  paused : bool;
  track_window : TrackWindow
}.

(** The function literals registered with [addListener].  Each closes over
    the component's setters and over [spotifyPlayer]. *)
Inductive Listener : Type :=
  | on_initialization_error
  | on_authentication_error
  | on_account_error
  | on_player_state_changed
  | on_ready
  | on_not_ready.

(** A [Spotify.Player] object.  [getOAuthToken] is the closure
    [cb => { cb(token); }], kept as the [token] it closes over. *)
Record Player : Type := {
  player_name : string;
  getOAuthToken : string;
  volume : Q;
  listeners : list (string * Listener)
}.

Record CaptureResult : Type := {
  displayMedia : bool;
  webAudio : bool;
  mediaRecorder : bool;
  capture_error : option string
}.

(** Calls that leave the component, in the order they are made. *)
Inductive Event : Type :=
  | Console (line : string)
  | Fetch (request : Request)
  | Navigate (href : string)
  | ReplaceState (title href : string)
  | AppendScript (src : string)
  | GetDisplayMedia (want_video want_audio : bool)
  | GetUserMedia (want_audio : bool)
  | TrackStop (track : nat)
  | IsTypeSupported (mime : string)
  | NewAudioContext
  | CreateMediaStreamSource (stream : MediaStream)
  | CreateGain
  | CreateMediaStreamDestination
  | ConnectNodes (source destination : string)
  | CloseAudioContext
  | PlayerConnect (target : nat)
  | PlayerDisconnect (target : nat)
  | PlayerTogglePlay (target : nat)
  | PlayerGetCurrentState (target : nat).

(** ** The world *)

(** The state hooks of the component. *)
Record Component : Type := {
  authStatus : string;
  player : option nat;
  deviceId : option string;
  accessToken : option string;
  isPaused : bool;
  currentTrack : option string;
  logs : list LogEntry;
  audioCaptureResult : option CaptureResult
}.

Definition with_authStatus (v : string) (x : Component) : Component :=
  {| authStatus := v;
     player := player x;
     deviceId := deviceId x;
     accessToken := accessToken x;
     isPaused := isPaused x;
     currentTrack := currentTrack x;
     logs := logs x;
     audioCaptureResult := audioCaptureResult x |}.

Definition with_player (v : option nat) (x : Component) : Component :=
  {| authStatus := authStatus x;
     player := v;
     deviceId := deviceId x;
     accessToken := accessToken x;
     isPaused := isPaused x;
     currentTrack := currentTrack x;
     logs := logs x;
     audioCaptureResult := audioCaptureResult x |}.

Definition with_deviceId (v : option string) (x : Component) : Component :=
  {| authStatus := authStatus x;
     player := player x;
     deviceId := v;
     accessToken := accessToken x;
     isPaused := isPaused x;
     currentTrack := currentTrack x;
     logs := logs x;
     audioCaptureResult := audioCaptureResult x |}.

Definition with_accessToken (v : option string) (x : Component) : Component :=
  {| authStatus := authStatus x;
     player := player x;
     deviceId := deviceId x;
     accessToken := v;
     isPaused := isPaused x;
     currentTrack := currentTrack x;
     logs := logs x;
     audioCaptureResult := audioCaptureResult x |}.

Definition with_isPaused (v : bool) (x : Component) : Component :=
  {| authStatus := authStatus x;
     player := player x;
     deviceId := deviceId x;
     accessToken := accessToken x;
     isPaused := v;
     currentTrack := currentTrack x;
     logs := logs x;
     audioCaptureResult := audioCaptureResult x |}.

Definition with_currentTrack (v : option string) (x : Component) : Component :=
  {| authStatus := authStatus x;
     player := player x;
     deviceId := deviceId x;
     accessToken := accessToken x;
     isPaused := isPaused x;
     currentTrack := v;
     logs := logs x;
     audioCaptureResult := audioCaptureResult x |}.

Definition with_logs (v : list LogEntry) (x : Component) : Component :=
  {| authStatus := authStatus x;
     player := player x;
     deviceId := deviceId x;
     accessToken := accessToken x;
     isPaused := isPaused x;
     currentTrack := currentTrack x;
     logs := v;
     audioCaptureResult := audioCaptureResult x |}.

Definition with_audioCaptureResult (v : option CaptureResult) (x : Component) : Component :=
  {| authStatus := authStatus x;
     player := player x;
     deviceId := deviceId x;
     accessToken := accessToken x;
     isPaused := isPaused x;
     currentTrack := currentTrack x;
     logs := logs x;
     audioCaptureResult := v |}.

(** What the component shares with the page: session storage, the query
    string of the location, the player objects made so far (a reference is
    an index), the media tracks not yet stopped, the number of audio
    contexts not yet closed, the [window.onSpotifyWebPlaybackSDKReady]
    closure (kept as the token it closes over), the number of random
    octets and of clock readings taken, and the trace. *)
Record Browser : Type := {
  sessionStorage : gmap string string;
  search : string;
  players : list Player;
  live_tracks : gset nat;
  audio_contexts : nat;
  sdk_ready : option (option string);
  entropy_used : nat;
  clock_reads : nat;
  trace : list Event
}.

Definition with_sessionStorage (v : gmap string string) (x : Browser) : Browser :=
  {| sessionStorage := v;
     search := search x;
     players := players x;
     live_tracks := live_tracks x;
     audio_contexts := audio_contexts x;
     sdk_ready := sdk_ready x;
     entropy_used := entropy_used x;
     clock_reads := clock_reads x;
     trace := trace x |}.

Definition with_search (v : string) (x : Browser) : Browser :=
  {| sessionStorage := sessionStorage x;
     search := v;
     players := players x;
     live_tracks := live_tracks x;
     audio_contexts := audio_contexts x;
     sdk_ready := sdk_ready x;
     entropy_used := entropy_used x;
     clock_reads := clock_reads x;
     trace := trace x |}.

Definition with_players (v : list Player) (x : Browser) : Browser :=
  {| sessionStorage := sessionStorage x;
     search := search x;
     players := v;
     live_tracks := live_tracks x;
     audio_contexts := audio_contexts x;
     sdk_ready := sdk_ready x;
     entropy_used := entropy_used x;
     clock_reads := clock_reads x;
     trace := trace x |}.

Definition with_live_tracks (v : gset nat) (x : Browser) : Browser :=
  {| sessionStorage := sessionStorage x;
     search := search x;
     players := players x;
     live_tracks := v;
     audio_contexts := audio_contexts x;
     sdk_ready := sdk_ready x;
     entropy_used := entropy_used x;
     clock_reads := clock_reads x;
     trace := trace x |}.

Definition with_audio_contexts (v : nat) (x : Browser) : Browser :=
  {| sessionStorage := sessionStorage x;
     search := search x;
     players := players x;
     live_tracks := live_tracks x;
     audio_contexts := v;
     sdk_ready := sdk_ready x;
     entropy_used := entropy_used x;
     clock_reads := clock_reads x;
     trace := trace x |}.

Definition with_sdk_ready (v : option (option string)) (x : Browser) : Browser :=
  {| sessionStorage := sessionStorage x;
     search := search x;
     players := players x;
     live_tracks := live_tracks x;
     audio_contexts := audio_contexts x;
     sdk_ready := v;
     entropy_used := entropy_used x;
     clock_reads := clock_reads x;
     trace := trace x |}.

Definition with_entropy_used (v : nat) (x : Browser) : Browser :=
  {| sessionStorage := sessionStorage x;
     search := search x;
     players := players x;
     live_tracks := live_tracks x;
     audio_contexts := audio_contexts x;
     sdk_ready := sdk_ready x;
     entropy_used := v;
     clock_reads := clock_reads x;
     trace := trace x |}.

Definition with_clock_reads (v : nat) (x : Browser) : Browser :=
  {| sessionStorage := sessionStorage x;
     search := search x;
     players := players x;
     live_tracks := live_tracks x;
     audio_contexts := audio_contexts x;
     sdk_ready := sdk_ready x;
     entropy_used := entropy_used x;
     clock_reads := v;
     trace := trace x |}.

Definition with_trace (v : list Event) (x : Browser) : Browser :=
  {| sessionStorage := sessionStorage x;
     search := search x;
     players := players x;
     live_tracks := live_tracks x;
     audio_contexts := audio_contexts x;
     sdk_ready := sdk_ready x;
     entropy_used := entropy_used x;
     clock_reads := clock_reads x;
     trace := v |}.

Record World : Type := {
  component : Component;
  browser : Browser
}.

Definition on_component (f : Component -> Component) (w : World) : World :=
  {| component := f (component w); browser := browser w |}.

Definition on_browser (f : Browser -> Browser) (w : World) : World :=
  {| component := component w; browser := f (browser w) |}.

(** What does not change while the page lives. *)
Record Platform : Type := {
  origin : string;
  pathname : string;
  document_title : string;
  random_byte : nat -> byte;
  sha256 : list byte -> list byte;
  wall_clock : nat -> string
}.

(** The hooks as first declared by [useState]. *)
Definition initial_component : Component :=
  {| authStatus := "Initializing...";
     player := None;
     deviceId := None;
     accessToken := None;
     isPaused := true;
     currentTrack := None;
     logs := [];
     audioCaptureResult := None |}.

Definition fresh_browser (storage : gmap string string) (query : string) : Browser :=
  {| sessionStorage := storage;
     search := query;
     players := [];
     live_tracks := ∅;
     audio_contexts := 0%nat;
     sdk_ready := None;
     entropy_used := 0%nat;
     clock_reads := 0%nat;
     trace := [] |}.

(** A page just loaded. *)
Definition page_load (storage : gmap string string) (query : string) : World :=
  {| component := initial_component; browser := fresh_browser storage query |}.

(** ** Running JavaScript

    A function body maps the platform and the world to a completion, a
    value or a thrown [Error], and the world it leaves.  Effects made
    before a [throw] stay. *)

Inductive Completion (A : Type) : Type :=
  | Normal (v : A)
  | Thrown (e : Error).
Arguments Normal {A} v.
Arguments Thrown {A} e.

Definition Js (A : Type) : Type := Platform -> World -> Completion A * World.

Definition ret {A : Type} (v : A) : Js A := fun _ w => (Normal v, w).

Definition bind {A B : Type} (c : Js A) (k : A -> Js B) : Js B :=
  fun pf w =>
    match c pf w with
    | (Normal v, w') => k v pf w'
    | (Thrown e, w') => (Thrown e, w')
    end.

Definition throw {A : Type} (e : Error) : Js A := fun _ w => (Thrown e, w).

Definition try_catch {A : Type} (block : Js A) (handler : Error -> Js A) : Js A :=
  fun pf w =>
    match block pf w with
    | (Normal v, w') => (Normal v, w')
    | (Thrown e, w') => handler e pf w'
    end.

Notation "'do' x <- c ; k" := (bind c (fun x => k))
  (at level 10, x name, c at level 100, k at level 200).
Notation "c ;; k" := (bind c (fun _ => k))
  (at level 100, k at level 200, right associativity).

Definition await {A : Type} (o : Outcome A) : Js A :=
  match o with
  | Returns v => ret v
  | Throws e => throw e
  end.

(** [promise.then(callback)] with no handler for a rejection: the
    callback runs on the value; a rejection stays unhandled and nothing
    runs. *)
Definition and_then {A : Type} (o : Outcome A) (callback : A -> Js unit) : Js unit :=
  match o with
  | Returns v => callback v
  | Throws _ => ret tt
  end.

Definition read {A : Type} (f : World -> A) : Js A := fun _ w => (Normal (f w), w).
Definition ask {A : Type} (f : Platform -> A) : Js A := fun pf w => (Normal (f pf), w).
Definition modify (f : World -> World) : Js unit := fun _ w => (Normal tt, f w).

Definition emit (e : Event) : Js unit :=
  modify (on_browser (fun b => with_trace (trace b ++ [e])%list b)).

Fixpoint forEach {A : Type} (f : A -> Js unit) (l : list A) : Js unit :=
  match l with
  | [] => ret tt
  | x :: rest => f x ;; forEach f rest
  end.

(** The world a body leaves and the value it completes with. *)
Definition exec {A : Type} (c : Js A) (pf : Platform) (w : World) : World :=
  snd (c pf w).
Definition result {A : Type} (c : Js A) (pf : Platform) (w : World) : Completion A :=
  fst (c pf w).

(** *** State setters and browser objects *)

Definition setAuthStatus (v : string) : Js unit := modify (on_component (with_authStatus v)).
Definition setPlayer (v : option nat) : Js unit := modify (on_component (with_player v)).
Definition setDeviceId (v : option string) : Js unit := modify (on_component (with_deviceId v)).
Definition setAccessToken (v : option string) : Js unit := modify (on_component (with_accessToken v)).
Definition setIsPaused (v : bool) : Js unit := modify (on_component (with_isPaused v)).
Definition setCurrentTrack (v : option string) : Js unit := modify (on_component (with_currentTrack v)).
Definition setLogs (f : list LogEntry -> list LogEntry) : Js unit :=
  modify (on_component (fun c => with_logs (f (logs c)) c)).
Definition setAudioCaptureResult (v : option CaptureResult) : Js unit :=
  modify (on_component (with_audioCaptureResult v)).

Definition sessionStorage_setItem (key value : string) : Js unit :=
  modify (on_browser (fun b => with_sessionStorage (<[key := value]> (sessionStorage b)) b)).
Definition sessionStorage_getItem (key : string) : Js (option string) :=
  read (fun w => sessionStorage (browser w) !! key).
Definition sessionStorage_removeItem (key : string) : Js unit :=
  modify (on_browser (fun b => with_sessionStorage (delete key (sessionStorage b)) b)).

(** [new Date().toLocaleTimeString()]. *)
Definition toLocaleTimeString : Js string :=
  fun pf w =>
    let k := clock_reads (browser w) in
    (Normal (wall_clock pf k), on_browser (with_clock_reads (S k)) w).

(** [crypto.getRandomValues] on a fresh [Uint8Array(n)]. *)
Definition getRandomValues (n : nat) : Js (list byte) :=
  fun pf w =>
    let k := entropy_used (browser w) in
    (Normal (map (random_byte pf) (seq k n)),
     on_browser (with_entropy_used (k + n)%nat) w).

Definition fetch (request : Request) (answer : Outcome Response) : Js Response :=
  emit (Fetch request) ;; await answer.

(** A stream handed out by the platform: its tracks are live until
    stopped. *)
Definition acquire (s : MediaStream) : Js unit :=
  modify (on_browser (fun b =>
    with_live_tracks (live_tracks b ∪ list_to_set (map track_id (getTracks s))) b)).

Definition getDisplayMedia (want_video want_audio : bool)
    (answer : Outcome MediaStream) : Js MediaStream :=
  emit (GetDisplayMedia want_video want_audio) ;;
  do stream <- await answer ;
  acquire stream ;;
  ret stream.

Definition getUserMedia (want_audio : bool) (answer : Outcome MediaStream)
  : Js MediaStream :=
  emit (GetUserMedia want_audio) ;;
  do stream <- await answer ;
  acquire stream ;;
  ret stream.

(** [track.stop()]. *)
Definition stop (t : MediaStreamTrack) : Js unit :=
  emit (TrackStop (track_id t)) ;;
  modify (on_browser (fun b => with_live_tracks (live_tracks b ∖ {[track_id t]}) b)).

(** ** The component: utility functions *)

Definition CLIENT_ID : string := "994bacff4dea4100864d3197b151fe95".

Definition REDIRECT_URI : Js string := ask (fun pf => origin pf ^^ pathname pf).

Definition SCOPES : string :=
  "streaming" ^^ " " ^^ "user-read-email" ^^ " " ^^ "user-read-private" ^^ " "
  ^^ "user-read-playback-state" ^^ " " ^^ "user-modify-playback-state".

Definition log (message : string) (type : Severity.t) : Js unit :=
  do timestamp <- toLocaleTimeString ;
  let logEntry := {| timestamp := timestamp; message := message; type := type |} in
  setLogs (fun prev => (prev ++ [logEntry])%list) ;;
  emit (Console ("[" ^^ Severity.toUpperCase type ^^ "] " ^^ message)).

Definition clearLog : Js unit := setLogs (fun _ => []).

(** ** PKCE helper functions *)

Definition generateCodeVerifier : Js string :=
  do array <- getRandomValues 32 ;
  ret (replace_all "=" EmptyString
         (replace_all "/" "_"
            (replace_all "+" "-" (Base64.btoa (fromCharCode array))))).

Definition generateCodeChallenge (verifier : string) : Js string :=
  let data := TextEncoder_encode verifier in
  do digest <- ask (fun pf => sha256 pf data) ;
  ret (replace_all "=" EmptyString
         (replace_all "/" "_"
            (replace_all "+" "-" (Base64.btoa (fromCharCode digest))))).

(** ** Authentication *)

Definition authUrl (redirect_uri codeChallenge : string) : string :=
  "https://accounts.spotify.com/authorize?"
  ^^ "client_id=" ^^ CLIENT_ID ^^ "&"
  ^^ "response_type=code&"
  ^^ "redirect_uri=" ^^ encodeURIComponent redirect_uri ^^ "&"
  ^^ "scope=" ^^ encodeURIComponent SCOPES ^^ "&"
  ^^ "code_challenge_method=S256&"
  ^^ "code_challenge=" ^^ codeChallenge ^^ "&"
  ^^ "show_dialog=true".

Definition authenticate : Js unit :=
  log "Starting PKCE Spotify authentication..." Severity.info ;;
  do codeVerifier <- generateCodeVerifier ;
  do codeChallenge <- generateCodeChallenge codeVerifier ;
  sessionStorage_setItem "code_verifier" codeVerifier ;;
  do redirect_uri <- REDIRECT_URI ;
  emit (Navigate (authUrl redirect_uri codeChallenge)).

Definition token_request (code redirect_uri storedCodeVerifier : string) : Request :=
  {| url := "https://accounts.spotify.com/api/token";
     method := "POST";
     headers := [("Content-Type", "application/x-www-form-urlencoded")];
     body := "grant_type=authorization_code&code=" ^^ code
             ^^ "&redirect_uri=" ^^ encodeURIComponent redirect_uri
             ^^ "&client_id=" ^^ CLIENT_ID
             ^^ "&code_verifier=" ^^ storedCodeVerifier |}.

(** Reading a property of a parsed body: [null] has none, and the read
    throws a [TypeError]. *)
Definition property {A : Type} (object : option TokenJson.t) (name : string)
    (read : TokenJson.t -> A) : Js A :=
  match object with
  | Some data => ret (read data)
  | None =>
      throw {| error_message :=
                 "Cannot read properties of null (reading '" ^^ name ^^ "')" |}
  end.

(** [handleAuthCallback]; [answer] is how the [fetch] of the token
    endpoint ends, should it be made.  The value is the access token, or
    [undefined]. *)
Definition handleAuthCallback (answer : Outcome Response) : Js (option string) :=
  do urlParams <- read (fun w => URLSearchParams (search (browser w))) ;
  let code := params_get "code" urlParams in
  let error := params_get "error" urlParams in
  if truthy error then
    log ("Authentication error: " ^^ interpolate error) Severity.error ;;
    setAuthStatus "❌ Authentication failed" ;;
    ret None
  else if truthy code then
    log "Authorization code received, exchanging for token with PKCE..." Severity.info ;;
    setAuthStatus "🔄 Exchanging code for token..." ;;
    try_catch
      (do storedCodeVerifier <- sessionStorage_getItem "code_verifier" ;
       if negb (truthy storedCodeVerifier) then
         throw {| error_message := "Code verifier not found" |}
       else
         do redirect_uri <- REDIRECT_URI ;
         do tokenResponse <-
           fetch (token_request (interpolate code) redirect_uri
                    (interpolate storedCodeVerifier)) answer ;
         if negb (ok tokenResponse) then
           do errorData <- await (json tokenResponse) ;
           do description <-
             property errorData "error_description"
               (fun data => TokenJson.or (TokenJson.error_description data)
                                         (TokenJson.error data)) ;
           throw {| error_message :=
                      "Token exchange failed: "
                      ^^ string_of_nat (status tokenResponse) ^^ " - "
                      ^^ TokenJson.interpolate description |}
         else
           do tokenData <- await (json tokenResponse) ;
           do access_token <- property tokenData "access_token" TokenJson.access_token ;
           if TokenJson.truthy access_token then
             setAccessToken (TokenJson.string_of access_token) ;;
             log "✅ Access token obtained with PKCE" Severity.success ;;
             setAuthStatus "✅ Authenticated with Spotify" ;;
             sessionStorage_removeItem "code_verifier" ;;
             do title <- ask document_title ;
             do redirect_uri <- REDIRECT_URI ;
             emit (ReplaceState title redirect_uri) ;;
             modify (on_browser (with_search EmptyString)) ;;
             ret (TokenJson.string_of access_token)
           else ret None)
      (fun error =>
         log ("Token exchange error: " ^^ error_message error) Severity.error ;;
         setAuthStatus "❌ Token exchange failed" ;;
         ret None)
  else ret None.

(** ** The player *)

(** What the vendor device sends. *)
Inductive DeviceEvent : Type :=
  | initialization_error (message : string)
  | authentication_error (message : string)
  | account_error (message : string)
  | player_state_changed (state : option WebPlaybackState)
  | ready (device_id : string)
  | not_ready (device_id : string).

Definition event_name (e : DeviceEvent) : string :=
  match e with
  | initialization_error _ => "initialization_error"
  | authentication_error _ => "authentication_error"
  | account_error _ => "account_error"
  | player_state_changed _ => "player_state_changed"
  | ready _ => "ready"
  | not_ready _ => "not_ready"
  end.

(** [new window.Spotify.Player(options)]: the reference of the new object. *)
Definition new_Player (options : Player) : Js nat :=
  do n <- read (fun w => List.length (players (browser w))) ;
  modify (on_browser (fun b => with_players (players b ++ [options])%list b)) ;;
  ret n.

Definition addListener (target : nat) (name : string) (l : Listener) : Js unit :=
  modify (on_browser (fun b =>
    with_players
      (alter (fun p => {| player_name := player_name p;
                          getOAuthToken := getOAuthToken p;
                          volume := volume p;
                          listeners := (listeners p ++ [(name, l)])%list |})
             target (players b)) b)).

(** The device asking for a token: it calls [getOAuthToken] with its own
    callback [cb]. *)
Definition request_token {A : Type} (p : Player) (cb : string -> A) : A :=
  cb (getOAuthToken p).

(** The body of the [player_state_changed] listener; [answer] is how
    [getCurrentState()] ends. *)
Definition player_state_changed_listener (spotifyPlayer : nat)
    (state : option WebPlaybackState)
    (answer : Outcome (option WebPlaybackState)) : Js unit :=
  match state with
  | None =>
      setCurrentTrack None ;;
      setIsPaused true
  | Some state =>
      setIsPaused (paused state) ;;
      match current_track (track_window state) with
      | Some current =>
          do first <- match artists current with
                      | a :: _ => ret a
                      | [] => throw {| error_message :=
                          "Cannot read properties of undefined (reading 'name')" |}
                      end ;
          let track := artist_name first ^^ " - " ^^ track_name current in
          setCurrentTrack (Some track) ;;
          log ("Now playing: " ^^ track) Severity.info
      | None => ret tt
      end ;;
      emit (PlayerGetCurrentState spotifyPlayer) ;;
      and_then answer (fun currentState =>
        match currentState with
        | None => log "Player is not active - transfer playback needed" Severity.info
        | Some _ => ret tt
        end)
  end.

(** The body of a registered listener on an event of its kind. *)
Definition run_listener (l : Listener) (spotifyPlayer : nat) (e : DeviceEvent)
    (answer : Outcome (option WebPlaybackState)) : Js unit :=
  match l, e with
  | on_initialization_error, initialization_error message =>
      log ("Initialization error: " ^^ message) Severity.error ;;
      setAuthStatus "❌ Player initialization failed"
  | on_authentication_error, authentication_error message =>
      log ("Authentication error: " ^^ message) Severity.error
  | on_account_error, account_error message =>
      log ("Account error: " ^^ message ^^ " - Premium required") Severity.error
  | on_player_state_changed, player_state_changed state =>
      player_state_changed_listener spotifyPlayer state answer
  | on_ready, ready device_id =>
      log ("✅ Player ready! Device ID: " ^^ device_id) Severity.success ;;
      setDeviceId (Some device_id) ;;
      setAuthStatus "✅ Player ready - Transfer playback from Spotify app"
  | on_not_ready, not_ready device_id =>
      log ("Player not ready. Device ID: " ^^ device_id) Severity.warning
  | _, _ => ret tt
  end.

(** The device [target] raising [e]: the listeners registered under the
    name of [e] run in the order of registration. *)
Definition dispatch (target : nat) (e : DeviceEvent)
    (answer : Outcome (option WebPlaybackState)) : Js unit :=
  do registered <- read (fun w =>
    match players (browser w) !! target with
    | Some p => List.filter (fun nl => String.eqb (fst nl) (event_name e)) (listeners p)
    | None => []
    end) ;
  forEach (fun nl => run_listener (snd nl) target e answer) registered.

(** [initializePlayer]; [connected] is how [connect()] ends. *)
Definition initializePlayer (token : option string) (connected : Outcome bool)
  : Js unit :=
  if negb (truthy token) then ret tt
  else
    log "Initializing Spotify Web Player (official pattern)..." Severity.info ;;
    do spotifyPlayer <-
      new_Player {| player_name := "Beats & Repeats Test Player";
                    getOAuthToken := interpolate token;
                    volume := 1 # 2;
                    listeners := [] |} ;
    setPlayer (Some spotifyPlayer) ;;
    addListener spotifyPlayer "initialization_error" on_initialization_error ;;
    addListener spotifyPlayer "authentication_error" on_authentication_error ;;
    addListener spotifyPlayer "account_error" on_account_error ;;
    addListener spotifyPlayer "player_state_changed" on_player_state_changed ;;
    addListener spotifyPlayer "ready" on_ready ;;
    addListener spotifyPlayer "not_ready" on_not_ready ;;
    emit (PlayerConnect spotifyPlayer) ;;
    and_then connected (fun success : bool =>
      if success then
        log "✅ Connected to Spotify Web Player (official pattern)" Severity.success
      else
        log "❌ Failed to connect" Severity.error).

(** ** Playback controls *)

(** [togglePlayback]; [answer] is how [player.togglePlay()] ends. *)
Definition togglePlayback (answer : Outcome unit) : Js unit :=
  do player <- read (fun w => player (component w)) ;
  match player with
  | Some p =>
      try_catch
        (emit (PlayerTogglePlay p) ;;
         await answer ;;
         log "Toggled playback" Severity.info)
        (fun error => log ("Playback error: " ^^ error_message error) Severity.error)
  | None => ret tt
  end.

(** [JSON.stringify] of a string. *)
Definition quotation_mark : ascii := ascii_of_N 34.
Definition reverse_solidus : ascii := ascii_of_N 92.

Definition json_escape (c : ascii) : string :=
  let n := N_of_ascii c in
  let escaped (x : ascii) := String reverse_solidus (String x EmptyString) in
  if n =? 34 then escaped quotation_mark
  else if n =? 92 then escaped reverse_solidus
  else if n =? 8 then escaped "b"%char
  else if n =? 9 then escaped "t"%char
  else if n =? 10 then escaped "n"%char
  else if n =? 12 then escaped "f"%char
  else if n =? 13 then escaped "r"%char
  else if n <? 32 then
    String reverse_solidus
      (String "u" (String "0" (String "0"
         (String (Base64.char_at "0123456789abcdef" (n / 16))
            (String (Base64.char_at "0123456789abcdef" (n mod 16)) EmptyString)))))
  else String c EmptyString.

Definition JSON_stringify_string (s : string) : string :=
  String quotation_mark
    (fold_right (fun c acc => json_escape c ^^ acc)
       (String quotation_mark EmptyString) (list_ascii_of_string s)).

(** [JSON.stringify({ device_ids: [deviceId], play: false })]. *)
Definition transfer_body (deviceId : string) : string :=
  "{" ^^ JSON_stringify_string "device_ids" ^^ ":[" ^^ JSON_stringify_string deviceId
  ^^ "]," ^^ JSON_stringify_string "play" ^^ ":false}".

Definition transfer_request (deviceId accessToken : string) : Request :=
  {| url := "https://api.spotify.com/v1/me/player";
     method := "PUT";
     headers := [("Content-Type", "application/json");
                 ("Authorization", "Bearer " ^^ accessToken)];
     body := transfer_body deviceId |}.

(** [transferPlayback]; [answer] is how the [fetch] ends. *)
Definition transferPlayback (answer : Outcome Response) : Js unit :=
  do deviceId <- read (fun w => deviceId (component w)) ;
  do accessToken <- read (fun w => accessToken (component w)) ;
  if negb (truthy deviceId) || negb (truthy accessToken) then ret tt
  else
    try_catch
      (do response <- fetch (transfer_request (interpolate deviceId)
                               (interpolate accessToken)) answer ;
       if ok response then log "✅ Playback transferred" Severity.success
       else log ("Transfer failed: " ^^ string_of_nat (status response)) Severity.error)
      (fun error => log ("Transfer error: " ^^ error_message error) Severity.error).

(** ** Critical audio tests *)

Definition new_AudioContext (answer : Outcome unit) : Js unit :=
  emit NewAudioContext ;;
  await answer ;;
  modify (on_browser (fun b => with_audio_contexts (S (audio_contexts b)) b)).

Definition createMediaStreamSource (stream : MediaStream) (answer : Outcome unit)
  : Js unit :=
  emit (CreateMediaStreamSource stream) ;;
  await answer.

Definition AudioContext_close : Js unit :=
  emit CloseAudioContext ;;
  modify (on_browser (fun b => with_audio_contexts (Nat.pred (audio_contexts b)) b)).

Definition with_displayMedia (v : bool) (r : CaptureResult) : CaptureResult :=
  {| displayMedia := v;
     webAudio := webAudio r;
     mediaRecorder := mediaRecorder r;
     capture_error := capture_error r |}.

Definition with_mediaRecorder (v : bool) (r : CaptureResult) : CaptureResult :=
  {| displayMedia := displayMedia r;
     webAudio := webAudio r;
     mediaRecorder := v;
     capture_error := capture_error r |}.

Definition with_capture_error (v : option string) (r : CaptureResult) : CaptureResult :=
  {| displayMedia := displayMedia r;
     webAudio := webAudio r;
     mediaRecorder := mediaRecorder r;
     capture_error := v |}.

(** [testAudioCapture].  [display] is how [getDisplayMedia] ends;
    [recorder] is [None] when [MediaRecorder] is undefined and otherwise
    how [MediaRecorder.isTypeSupported] ends.  The object [results] is
    passed from block to block: each block yields it as it stands when
    the block is left. *)
Definition testAudioCapture (display : Outcome MediaStream)
    (recorder : option (Outcome bool)) : Js unit :=
  log "🔊 CRITICAL TEST: Testing audio capture capabilities..." Severity.warning ;;
  let results := {| displayMedia := false;
                    webAudio := true;
                    mediaRecorder := false;
                    capture_error := None |} in
  do results <-
    try_catch
      (log "Testing getDisplayMedia for system audio..." Severity.info ;;
       do displayStream <- getDisplayMedia false true display ;
       if (0 <? List.length (getAudioTracks displayStream))%nat then
         let results := with_displayMedia true results in
         log "✅ System audio capture: SUCCESS" Severity.success ;;
         forEach stop (getTracks displayStream) ;;
         ret results
       else ret results)
      (fun error =>
         log ("❌ System audio capture failed: " ^^ error_message error) Severity.error ;;
         ret (with_capture_error (Some (error_message error)) results)) ;
  do results <-
    try_catch
      (match recorder with
       | Some isTypeSupported =>
           emit (IsTypeSupported "audio/webm") ;;
           do supported <- await isTypeSupported ;
           if (supported : bool) then
             let results := with_mediaRecorder true results in
             log "✅ MediaRecorder supported" Severity.success ;;
             ret results
           else ret results
       | None => ret results
       end)
      (fun error =>
         log ("MediaRecorder test failed: " ^^ error_message error) Severity.error ;;
         ret results) ;
  setAudioCaptureResult (Some results) ;;
  if displayMedia results then
    log "🟢 VERDICT: Audio capture POSSIBLE - Spotify integration viable!" Severity.success
  else
    log "🔴 VERDICT: Audio capture NOT possible - Recommend built-in player" Severity.error.

(** [testFullAudioMixing].  [mic] and [system] are how [getUserMedia] and
    [getDisplayMedia] end, [context] how [new AudioContext()] ends,
    [micSource] and [systemSource] how the two calls of
    [createMediaStreamSource] end. *)
Definition testFullAudioMixing (mic system : Outcome MediaStream)
    (context micSource systemSource : Outcome unit) : Js unit :=
  log "🔀 Testing full audio mixing (mic + system)..." Severity.warning ;;
  try_catch
    (do micStream <- getUserMedia true mic ;
     log "✅ Microphone access granted" Severity.info ;;
     do systemStream <- getDisplayMedia false true system ;
     log "✅ System audio access granted" Severity.info ;;
     new_AudioContext context ;;
     createMediaStreamSource micStream micSource ;;
     createMediaStreamSource systemStream systemSource ;;
     emit CreateGain ;;
     emit CreateMediaStreamDestination ;;
     emit (ConnectNodes "micSource" "mixerGain") ;;
     emit (ConnectNodes "systemSource" "mixerGain") ;;
     emit (ConnectNodes "mixerGain" "destination") ;;
     log "✅ FULL AUDIO MIXING: SUCCESS!" Severity.success ;;
     log "✅ Coach voice + Spotify music mixing confirmed" Severity.success ;;
     forEach stop (getTracks micStream) ;;
     forEach stop (getTracks systemStream) ;;
     AudioContext_close)
    (fun error =>
       log ("❌ Audio mixing failed: " ^^ error_message error) Severity.error).

(** ** Effects *)

(** The effect run when the component mounts; [answer] is passed on to
    [handleAuthCallback], whose promise is always fulfilled. *)
Definition mount (answer : Outcome Response) : Js unit :=
  log "🚀 React Spotify Test initialized - Following official pattern" Severity.info ;;
  do token <- handleAuthCallback answer ;
  if truthy token then
    emit (AppendScript "https://sdk.scdn.co/spotify-player.js") ;;
    modify (on_browser (with_sdk_ready (Some token)))
  else
    log "No token found - please authenticate first" Severity.info ;;
    setAuthStatus "🔐 Please authenticate with Spotify".

(** [window.onSpotifyWebPlaybackSDKReady], once the effect has set it. *)
Definition onSpotifyWebPlaybackSDKReady (connected : Outcome bool) : Js unit :=
  do handler <- read (fun w => sdk_ready (browser w)) ;
  match handler with
  | Some token =>
      log "🎵 Spotify Web Playback SDK loaded (official pattern)" Severity.info ;;
      initializePlayer token connected
  | None => ret tt
  end.

(** The clean-up of that effect.  It closes over [player] as the first
    render had it. *)
Definition unmount : Js unit :=
  match player initial_component with
  | Some p => emit (PlayerDisconnect p)
  | None => ret tt
  end.

(** ** Observations *)

(** The requests sent over the network, in order. *)
Definition network_calls (t : list Event) : list Request :=
  flat_map (fun e => match e with Fetch r => [r] | _ => [] end) t.

(** The log entries added between two worlds. *)
Definition logged (w w' : World) : list LogEntry :=
  drop (List.length (logs (component w))) (logs (component w')).

(** The events added between two worlds. *)
Definition emitted (w w' : World) : list Event :=
  drop (List.length (trace (browser w))) (trace (browser w')).

(** The last thing logged between two worlds. *)
Definition reported (w w' : World) : option (string * Severity.t) :=
  match last (logged w w') with
  | Some entry => Some (message entry, type entry)
  | None => None
  end.

(** The failures of the specification, as the component shows them. *)
Definition AuthDenied (reason : string) (w w' : World) : Prop :=
  reported w w' = Some ("Authentication error: " ^^ reason, Severity.error)
  /\ authStatus (component w') = "❌ Authentication failed".

Definition MissingVerifier (w w' : World) : Prop :=
  reported w w' = Some ("Token exchange error: Code verifier not found", Severity.error)
  /\ authStatus (component w') = "❌ Token exchange failed".

Definition TokenExchangeFailed (status : nat) (description : string) (w w' : World) : Prop :=
  reported w w'
  = Some ("Token exchange error: Token exchange failed: "
          ^^ string_of_nat status ^^ " - " ^^ description, Severity.error)
  /\ authStatus (component w') = "❌ Token exchange failed".

(** The query string carries a usable [code] and no usable [error]. *)
Definition code_pending (code : string) (w : World) : Prop :=
  params_get "code" (URLSearchParams (search (browser w))) = Some code
  /\ code <> EmptyString
  /\ truthy (params_get "error" (URLSearchParams (search (browser w)))) = false.

(** A successful response that carries the access token [token]. *)
Definition grants (token : string) (response : Response) : Prop :=
  ok response = true
  /\ (exists data,
        json response = Returns (Some data)
        /\ TokenJson.access_token data = TokenJson.text token)
  /\ token <> EmptyString.

(** The three replacements both PKCE helpers apply to the output of
    [btoa]. *)
Definition url_safe (s : string) : string :=
  replace_all "=" EmptyString (replace_all "/" "_" (replace_all "+" "-" s)).

(** Strings of ASCII characters. *)
Fixpoint all_ascii (s : string) : bool :=
  match s with
  | EmptyString => true
  | String c rest => (N_of_ascii c <? 128) && all_ascii rest
  end.

(** The verifier held in session storage, if any. *)
Definition stored_verifier (w : World) : option string :=
  sessionStorage (browser w) !! "code_verifier".

(** The octets the next call of [getRandomValues] on 32 octets yields. *)
Definition next_random (pf : Platform) (w : World) : list byte :=
  map (random_byte pf) (seq (entropy_used (browser w)) 32).

(** The world once the tracks [ts] have been stopped, one after the
    other. *)
Definition released (ts : list MediaStreamTrack) (w : World) : World :=
  on_browser (fun b =>
    with_live_tracks (live_tracks b ∖ list_to_set (map track_id ts))
      (with_trace (trace b ++ map (fun t => TrackStop (track_id t)) ts)%list b)) w.

(** Events of the Web Audio API. *)
Definition uses_web_audio (e : Event) : bool :=
  match e with
  | NewAudioContext | CreateMediaStreamSource _ | CreateGain
  | CreateMediaStreamDestination | ConnectNodes _ _ | CloseAudioContext => true
  | _ => false
  end.

(** The handling of a [player_state_changed] event by the listener
    registered for it on the player [spotifyPlayer]. *)
Definition handle_state (spotifyPlayer : nat) (state : option WebPlaybackState)
    (answer : Outcome (option WebPlaybackState)) : Js unit :=
  run_listener on_player_state_changed spotifyPlayer (player_state_changed state) answer.

(** The token the device obtains when it asks the player the component
    holds for one. *)
Definition supplied_token (w : World) : option string :=
  match player (component w) with
  | Some p =>
      match players (browser w) !! p with
      | Some device => Some (request_token device (fun token => token))
      | None => None
      end
  | None => None
  end.

(** Whether the [MediaRecorder] check finds the recorder usable. *)
Definition recorder_supported (recorder : option (Outcome bool)) : bool :=
  match recorder with
  | Some (Returns supported) => supported
  | Some (Throws _) => false
  | None => false
  end.

(** ** The page as a whole

    An asynchronous function is run to its end in one piece; what would
    run while it is suspended is ordered before or after it. *)

(** What can happen to a mounted page: a click on one of its buttons, the
    SDK script calling back, the device raising an event.  Each carries
    the answers of the platform it will need. *)
Inductive Action : Type :=
  | click_login
  | click_play_pause (answer : Outcome unit)
  | click_transfer (answer : Outcome Response)
  | click_test_audio (display : Outcome MediaStream) (recorder : option (Outcome bool))
  | click_full_mixing (mic system : Outcome MediaStream)
      (context micSource systemSource : Outcome unit)
  | click_clear
  | sdk_loaded (connected : Outcome bool)
  | device_event (target : nat) (e : DeviceEvent)
      (answer : Outcome (option WebPlaybackState)).

(** A button with [disabled={!player}] or [disabled={!deviceId}] takes no
    click while the value is falsy. *)
Definition perform (a : Action) : Js unit :=
  match a with
  | click_login => authenticate
  | click_play_pause answer =>
      do player <- read (fun w => player (component w)) ;
      if player is Some _ then togglePlayback answer else ret tt
  | click_transfer answer =>
      do deviceId <- read (fun w => deviceId (component w)) ;
      if truthy deviceId then transferPlayback answer else ret tt
  | click_test_audio display recorder =>
      do player <- read (fun w => player (component w)) ;
      if player is Some _ then testAudioCapture display recorder else ret tt
  | click_full_mixing mic system context micSource systemSource =>
      do player <- read (fun w => player (component w)) ;
      if player is Some _
      then testFullAudioMixing mic system context micSource systemSource
      else ret tt
  | click_clear => clearLog
  | sdk_loaded connected => onSpotifyWebPlaybackSDKReady connected
  | device_event target e answer => dispatch target e answer
  end.

(** The world of a page loaded with [storage] and [query], once its
    effect has run and [actions] have happened in turn. *)
Definition run_page (pf : Platform) (storage : gmap string string) (query : string)
    (answer : Outcome Response) (actions : list Action) : World :=
  fold_left (fun w a => exec (perform a) pf w) actions
    (exec (mount answer) pf (page_load storage query)).

(** The part of the world the credential and the verdict live in. *)
Definition core (w : World)
  : option string * option CaptureResult * option nat * list Player
    * option (option string) :=
  (accessToken (component w), audioCaptureResult (component w),
   player (component w), players (browser w), sdk_ready (browser w)).

(** The verdict, if there is one, reports Web Audio as available. *)
Definition verdict_has_web_audio (w : World) : bool :=
  match audioCaptureResult (component w) with
  | Some r => webAudio r
  | None => true
  end.

(** The closure waiting for the SDK and every player made so far hold the
    credential of the component, and the player of the component is one
    of those made. *)
Definition credential_shared (w : World) : Prop :=
  (forall token, sdk_ready (browser w) = Some token ->
                 truthy token = true /\ accessToken (component w) = token)
  /\ Forall (fun device => Some (getOAuthToken device) = accessToken (component w))
       (players (browser w))
  /\ (forall p, player (component w) = Some p ->
                (p < List.length (players (browser w)))%nat).

(** What the [MediaRecorder] check of [testAudioCapture] emits: nothing
    when [MediaRecorder] is undefined, otherwise the call of
    [isTypeSupported] and the line it logs. *)
Definition recorder_check (recorder : option (Outcome bool)) : list Event :=
  match recorder with
  | None => []
  | Some (Returns true) =>
      [IsTypeSupported "audio/webm"; Console "[SUCCESS] ✅ MediaRecorder supported"]
  | Some (Returns false) => [IsTypeSupported "audio/webm"]
  | Some (Throws e) =>
      [IsTypeSupported "audio/webm";
       Console ("[ERROR] MediaRecorder test failed: " ^^ error_message e)]
  end.

(** ** Sample values *)

Definition sample_platform : Platform :=
  {| origin := "http://localhost:3000";
     pathname := "/";
     document_title := "Spotify React PWA Test";
     random_byte := fun n => match Byte.of_nat n with
                             | Some b => b
                             | None => Byte.x00
                             end;
     sha256 := fun data => data;
     wall_clock := fun _ => "12:00:00" |}.

Definition token_response (token : string) : Response :=
  {| status := 200;
     json := Returns (Some {| TokenJson.access_token := TokenJson.text token;
                              TokenJson.error := TokenJson.undefined;
                              TokenJson.error_description := TokenJson.undefined |}) |}.

Definition error_response (code : nat) (err description : string) : Response :=
  {| status := code;
     json := Returns (Some {| TokenJson.access_token := TokenJson.undefined;
                              TokenJson.error := TokenJson.text err;
                              TokenJson.error_description :=
                                TokenJson.text description |}) |}.

Definition sample_track : WebPlaybackState :=
  {| paused := true;
     track_window :=
       {| current_track :=
            Some {| track_name := "X"; artists := [ {| artist_name := "Y" |} ] |} |} |}.

Definition trackless_state : WebPlaybackState :=
  {| paused := false; track_window := {| current_track := None |} |}.

Definition denied : Error := {| error_message := "Permission denied" |}.

Definition microphone : MediaStream :=
  {| getTracks := [ {| track_id := 1; kind := audio |} ] |}.

Definition screen_share : MediaStream :=
  {| getTracks := [ {| track_id := 2; kind := audio |} ] |}.

(** ** What a body keeps

    [keeps R c]: whatever the platform and the world, the world [c]
    leaves is related by [R] to the world it started from. *)
Definition keeps {A : Type} (R : World -> World -> Prop) (c : Js A) : Prop :=
  forall (pf : Platform) (w : World), R w (exec c pf w).

(** The value [proj] reads is the same in both worlds. *)
Definition same_on {T : Type} (proj : World -> T) (w w' : World) : Prop :=
  proj w' = proj w.

(** The log of the second world extends the log of the first. *)
Definition log_grows (w w' : World) : Prop :=
  logs (component w) `prefix_of` logs (component w').

(** The trace of the second world extends the trace of the first by
    events that all pass [allowed]. *)
Definition emits_only (allowed : Event -> bool) (w w' : World) : Prop :=
  exists added : list Event,
    trace (browser w') = (trace (browser w) ++ added)%list
    /\ forallb allowed added = true.

(** The hooks of the component other than the log. *)
Definition hooks (w : World)
  : string * option nat * option string * option string * bool * option string
    * option CaptureResult :=
  (authStatus (component w), player (component w), deviceId (component w),
   accessToken (component w), isPaused (component w), currentTrack (component w),
   audioCaptureResult (component w)).

(** The playback state the device reports. *)
Definition playback (w : World) : option string * bool * option string :=
  (deviceId (component w), isPaused (component w), currentTrack (component w)).

(** Events that leave the page for an address of the provider: a request
    to the token endpoint or to the player endpoint, a navigation to the
    authorization endpoint, the script of the SDK.  Other events stay in
    the browser. *)
Definition to_provider (e : Event) : bool :=
  match e with
  | Fetch r =>
      (String.eqb (url r) "https://accounts.spotify.com/api/token"
       && String.eqb (method r) "POST")
      || (String.eqb (url r) "https://api.spotify.com/v1/me/player"
          && String.eqb (method r) "PUT")
  | Navigate href => String.prefix "https://accounts.spotify.com/authorize?" href
  | AppendScript src => String.eqb src "https://sdk.scdn.co/spotify-player.js"
  | _ => true
  end.

(** Events other than a network request. *)
Definition not_fetch (e : Event) : bool :=
  match e with
  | Fetch _ => false
  | _ => true
  end.

(** What [handleAuthCallback] needs to attempt the exchange: a usable
    [code], no usable [error], a usable stored verifier. *)
Definition exchange_inputs (w : World) : option (string * string) :=
  let urlParams := URLSearchParams (search (browser w)) in
  if truthy (params_get "error" urlParams) then None
  else
    match params_get "code" urlParams, stored_verifier w with
    | Some (String c code), Some (String v verifier) =>
        Some (String c code, String v verifier)
    | _, _ => None
    end.

(** A failed exchange as the component shows it: the text is logged as an
    error after "Token exchange error: ", the status says the exchange
    failed, and the credential, session storage and the query string are
    as before. *)
Definition exchange_failed (text : string) (w w' : World) : Prop :=
  reported w w' = Some ("Token exchange error: " ^^ text, Severity.error)
  /\ authStatus (component w') = "❌ Token exchange failed"
  /\ accessToken (component w') = accessToken (component w)
  /\ sessionStorage (browser w') = sessionStorage (browser w)
  /\ search (browser w') = search (browser w).

(** The listeners [initializePlayer] registers, in the order of
    registration. *)
Definition installed_listeners : list (string * Listener) :=
  [("initialization_error", on_initialization_error);
   ("authentication_error", on_authentication_error);
   ("account_error", on_account_error);
   ("player_state_changed", on_player_state_changed);
   ("ready", on_ready);
   ("not_ready", on_not_ready)].

(** The device events whose listeners only log. *)
Definition advisory (e : DeviceEvent) : bool :=
  match e with
  | authentication_error _ | account_error _ | not_ready _ => true
  | _ => false
  end.

(** [player.disconnect()]. *)
Definition is_disconnect (e : Event) : bool :=
  match e with
  | PlayerDisconnect _ => true
  | _ => false
  end.

Definition never_disconnects (e : Event) : bool := negb (is_disconnect e).

(** A page on which no exchange has succeeded: no credential, no closure
    waiting for the SDK, no player. *)
Definition unauthenticated (w : World) : Prop :=
  accessToken (component w) = None
  /\ sdk_ready (browser w) = None
  /\ player (component w) = None
  /\ players (browser w) = [].

(** The tracks of a stream, by their ids. *)
Definition tracks_of (s : MediaStream) : gset nat :=
  list_to_set (map track_id (getTracks s)).

(** The first of the five platform calls of [testFullAudioMixing] that
    throws, in the order the calls are made. *)
Definition first_failure (mic system : Outcome MediaStream)
    (context micSource systemSource : Outcome unit) : option Error :=
  match mic, system, context, micSource, systemSource with
  | Throws e, _, _, _, _ => Some e
  | Returns _, Throws e, _, _, _ => Some e
  | Returns _, Returns _, Throws e, _, _ => Some e
  | Returns _, Returns _, Returns _, Throws e, _ => Some e
  | Returns _, Returns _, Returns _, Returns _, Throws e => Some e
  | Returns _, Returns _, Returns _, Returns _, Returns _ => None
  end.

(** The characters of the URL-safe base64 table: letters, digits, [-]
    and [_]. *)
Definition url_char (c : ascii) : bool :=
  existsb (Ascii.eqb c) (list_ascii_of_string Base64.url_alphabet).

Fixpoint all_url_chars (s : string) : bool :=
  match s with
  | EmptyString => true
  | String c rest => url_char c && all_url_chars rest
  end.

(** * Properties *)

Ltac world w :=
  destruct w as [[authStatus0 player0 deviceId0 accessToken0 isPaused0
                  currentTrack0 logs0 result0]
                 [storage0 search0 players0 live0 contexts0 sdk0 entropy0
                  clock0 trace0]].

Ltac step :=
  cbn -[drop last str_cat forEach Nat.ltb getAudioTracks difference union
        list_to_set lookup insert delete URLSearchParams params_get].

Ltac pkce_step :=
  cbn -[drop last str_cat seq map base64url Base64.encode Base64.btoa replace_all
        TextEncoder_encode string_of_list_byte encodeURIComponent authUrl
        lookup insert delete next_random Nat.add].

Ltac new_events :=
  repeat rewrite <- app_assoc; rewrite !drop_app_length.

Lemma truthy_nonempty (s : string) : s <> EmptyString -> truthy (Some s) = true.
Proof. destruct s; [congruence | reflexivity]. Qed.

(** ** Base64 *)

Module Base64Facts.
Import Base64.

(** Induction on a string three characters at a time. *)
Lemma by_triples (P : string -> Prop) :
  P EmptyString ->
  (forall a, P (String a EmptyString)) ->
  (forall a b, P (String a (String b EmptyString))) ->
  (forall a b c rest, P rest -> P (String a (String b (String c rest)))) ->
  forall s, P s.
Proof.
  intros H0 H1 H2 H3 s.
  assert (G : P s /\ (forall a, P (String a s))
              /\ (forall a b, P (String a (String b s)))).
  { induction s as [|x s (IH0 & IH1 & IH2)]; repeat split; auto. }
  apply G.
Qed.

Lemma sextet_listed (n : N) : n < 64 -> In n sextets.
Proof.
  intros H. unfold sextets. apply in_map_iff. exists (N.to_nat n).
  split; [lia | apply in_seq; lia].
Qed.

(** A property checked on each of the 64 values holds below 64. *)
Lemma for_all_sextets (P : N -> Prop) :
  List.Forall P sextets -> forall n, n < 64 -> P n.
Proof.
  intros H n Hn. apply (proj1 (List.Forall_forall P sextets) H), sextet_listed, Hn.
Qed.

Ltac each_sextet tac :=
  unfold sextets; cbv [seq map]; repeat (constructor; [tac |]); constructor.

Ltac euclid x d :=
  let q := fresh "q" in
  let r := fresh "r" in
  pose proof (N.Div0.div_mod x d);
  assert (x mod d < d) by (apply N.mod_lt; discriminate);
  set (q := x / d) in *; set (r := x mod d) in *; clearbody q r.

Lemma sextets_lt (a b c : N) :
  a < 256 -> b < 256 -> c < 256 ->
  sextet0 a < 64 /\ sextet1 a b < 64 /\ sextet2 b c < 64 /\ sextet3 c < 64.
Proof.
  unfold sextet0, sextet1, sextet2, sextet3. intros Ha Hb Hc.
  euclid a 4. euclid b 16. euclid c 64. lia.
Qed.

(** Three octets are recovered from their four 6-bit groups. *)
Lemma sextets_inj (a b c a' b' c' : N) :
  a < 256 -> b < 256 -> c < 256 -> a' < 256 -> b' < 256 -> c' < 256 ->
  sextet0 a = sextet0 a' -> sextet1 a b = sextet1 a' b' ->
  sextet2 b c = sextet2 b' c' -> sextet3 c = sextet3 c' ->
  a = a' /\ b = b' /\ c = c'.
Proof.
  unfold sextet0, sextet1, sextet2, sextet3. intros.
  euclid a 4. euclid b 16. euclid c 64.
  euclid a' 4. euclid b' 16. euclid c' 64. lia.
Qed.

Lemma index_char_at (n : N) :
  n < 64 -> index url_alphabet (char_at url_alphabet n) = n.
Proof.
  intros H. pattern n. apply for_all_sextets; [| exact H].
  each_sextet ltac:(vm_compute; reflexivity).
Qed.

Lemma char_at_inj (n m : N) :
  n < 64 -> m < 64 -> char_at url_alphabet n = char_at url_alphabet m -> n = m.
Proof.
  intros Hn Hm H.
  rewrite <- (index_char_at n Hn), <- (index_char_at m Hm), H. reflexivity.
Qed.

Lemma char_at_ascii (n : N) :
  n < 64 -> (N_of_ascii (char_at url_alphabet n) <? 128) = true.
Proof.
  intros H. pattern n. apply for_all_sextets; [| exact H].
  each_sextet ltac:(vm_compute; reflexivity).
Qed.

(** The replacements turn a character of the standard table into the
    character of the URL-safe table at the same place, and drop [=]. *)
Lemma url_safe_char (n : N) (rest : string) :
  n < 64 ->
  url_safe (String (char_at alphabet n) rest)
  = String (char_at url_alphabet n) (url_safe rest).
Proof.
  intros H. revert rest. pattern n. apply for_all_sextets; [| exact H].
  each_sextet ltac:(intros rest; reflexivity).
Qed.

Lemma url_safe_pad (rest : string) : url_safe (String pad rest) = url_safe rest.
Proof. reflexivity. Qed.

Ltac bounded :=
  repeat match goal with
         | a : ascii |- _ =>
             lazymatch goal with
             | _ : N_of_ascii a < 256 |- _ => fail
             | _ => pose proof (N_ascii_bounded a)
             end
         end.

(** [btoa] followed by the replacements is the URL-safe encoding without
    padding. *)
Lemma url_safe_btoa (s : string) : url_safe (btoa s) = encode url_alphabet false s.
Proof.
  unfold btoa. induction s as [| a | a b | a b c rest IH] using by_triples;
    [reflexivity | | |]; bounded.
  - destruct (sextets_lt (N_of_ascii a) 0 0) as (S0 & S1 & _); [lia..|].
    cbn [encode]. rewrite !url_safe_char, !url_safe_pad by assumption. reflexivity.
  - destruct (sextets_lt (N_of_ascii a) (N_of_ascii b) 0) as (S0 & S1 & S2 & _); [lia..|].
    cbn [encode]. rewrite !url_safe_char, !url_safe_pad by assumption. reflexivity.
  - destruct (sextets_lt (N_of_ascii a) (N_of_ascii b) (N_of_ascii c))
      as (S0 & S1 & S2 & S3); [lia..|].
    cbn [encode]. rewrite !url_safe_char by assumption. rewrite IH. reflexivity.
Qed.

Lemma N_of_ascii_inj (a b : ascii) : N_of_ascii a = N_of_ascii b -> a = b.
Proof.
  intros H. rewrite <- (ascii_N_embedding a), <- (ascii_N_embedding b), H. reflexivity.
Qed.

Lemma encode_inj (s t : string) :
  encode url_alphabet false s = encode url_alphabet false t -> s = t.
Proof.
  revert t. induction s as [| a | a b | a b c rest IH] using by_triples;
    intros [| a' [| b' [| c' rest']]]; cbn [encode]; intros E;
    try discriminate E; try reflexivity; bounded.
  - injection E as E0 E1.
    destruct (sextets_lt (N_of_ascii a) 0 0) as (? & ? & _); [lia..|].
    destruct (sextets_lt (N_of_ascii a') 0 0) as (? & ? & _); [lia..|].
    apply char_at_inj in E0, E1; try assumption.
    destruct (sextets_inj (N_of_ascii a) 0 0 (N_of_ascii a') 0 0) as (Ea & _);
      try assumption; try lia; try reflexivity.
    apply N_of_ascii_inj in Ea. congruence.
  - injection E as E0 E1 E2.
    destruct (sextets_lt (N_of_ascii a) (N_of_ascii b) 0) as (? & ? & ? & _); [lia..|].
    destruct (sextets_lt (N_of_ascii a') (N_of_ascii b') 0) as (? & ? & ? & _); [lia..|].
    apply char_at_inj in E0, E1, E2; try assumption.
    destruct (sextets_inj (N_of_ascii a) (N_of_ascii b) 0
                (N_of_ascii a') (N_of_ascii b') 0)
      as (Ea & Eb & _); try assumption; try lia; try reflexivity.
    apply N_of_ascii_inj in Ea, Eb. congruence.
  - injection E as E0 E1 E2 E3 E4.
    destruct (sextets_lt (N_of_ascii a) (N_of_ascii b) (N_of_ascii c))
      as (? & ? & ? & ?); [lia..|].
    destruct (sextets_lt (N_of_ascii a') (N_of_ascii b') (N_of_ascii c'))
      as (? & ? & ? & ?); [lia..|].
    apply char_at_inj in E0, E1, E2, E3; try assumption.
    destruct (sextets_inj (N_of_ascii a) (N_of_ascii b) (N_of_ascii c)
                (N_of_ascii a') (N_of_ascii b') (N_of_ascii c'))
      as (Ea & Eb & Ec); try assumption.
    apply N_of_ascii_inj in Ea, Eb, Ec. apply IH in E4. congruence.
Qed.

Lemma encode_ascii (s : string) : all_ascii (encode url_alphabet false s) = true.
Proof.
  induction s as [| a | a b | a b c rest IH] using by_triples;
    [reflexivity | | |]; bounded.
  - destruct (sextets_lt (N_of_ascii a) 0 0) as (S0 & S1 & _); [lia..|].
    cbn [encode all_ascii]. rewrite !char_at_ascii by assumption. reflexivity.
  - destruct (sextets_lt (N_of_ascii a) (N_of_ascii b) 0) as (S0 & S1 & S2 & _); [lia..|].
    cbn [encode all_ascii]. rewrite !char_at_ascii by assumption. reflexivity.
  - destruct (sextets_lt (N_of_ascii a) (N_of_ascii b) (N_of_ascii c))
      as (S0 & S1 & S2 & S3); [lia..|].
    cbn [encode all_ascii]. rewrite !char_at_ascii, IH by assumption. reflexivity.
Qed.

End Base64Facts.

Lemma base64url_inj (xs ys : list byte) : base64url xs = base64url ys -> xs = ys.
Proof.
  unfold base64url. intros E. apply Base64Facts.encode_inj in E.
  rewrite <- (list_byte_of_string_of_list_byte xs),
          <- (list_byte_of_string_of_list_byte ys), E.
  reflexivity.
Qed.

(** What both PKCE helpers compute from octets is their base64url
    encoding without padding. *)
Lemma url_safe_base64url (bytes : list byte) :
  replace_all "=" EmptyString
    (replace_all "/" "_" (replace_all "+" "-" (Base64.btoa (fromCharCode bytes))))
  = base64url bytes.
Proof. apply Base64Facts.url_safe_btoa. Qed.

(** On ASCII text the encoder yields the characters themselves. *)
Lemma TextEncoder_ascii (s : string) :
  all_ascii s = true -> TextEncoder_encode s = list_byte_of_string s.
Proof.
  unfold TextEncoder_encode. induction s as [|c s IH]; [reflexivity |].
  cbn [all_ascii]. intros H. apply andb_prop in H as [Hc Hs].
  cbn [list_ascii_of_string flat_map list_byte_of_string].
  unfold utf8_unit at 1. rewrite Hc, (IH Hs). reflexivity.
Qed.

(** ** The query string *)

(** ASCII text is its own UTF-8 decoding. *)
Lemma utf8_decode_ascii (s : string) : all_ascii s = true -> Utf8.decode s = s.
Proof.
  unfold Utf8.decode. induction s as [|c s IH]; [reflexivity |].
  cbn [all_ascii]. intros H. apply andb_prop in H as [Hc Hs].
  cbn [Utf8.run]. unfold Utf8.step. cbn [Utf8.needed Utf8.start].
  unfold Utf8.lead_octet.
  assert (Hle : (N_of_ascii c <=? 127) = true)
    by (apply N.leb_le; apply N.ltb_lt in Hc; lia).
  rewrite Hle, (IH Hs). reflexivity.
Qed.

(** An escaped octet that is not UTF-8 is decoded to U+FFFD, and
    well-formed sequences around it are kept. *)
Lemma form_decode_ill_formed :
  form_decode "%E9t%C3%A9"
  = Utf8.replacement_character
    ^^ String "t" (String (ascii_of_N 195) (String (ascii_of_N 169) EmptyString)).
Proof. vm_compute. reflexivity. Qed.

(** ** PKCE *)

Lemma generateCodeVerifier_spec (pf : Platform) (w : World) :
  generateCodeVerifier pf w
  = (Normal (base64url (next_random pf w)),
     on_browser (with_entropy_used (entropy_used (browser w) + 32)%nat) w).
Proof.
  unfold generateCodeVerifier, bind, getRandomValues, ret.
  rewrite url_safe_base64url. reflexivity.
Qed.

Lemma generateCodeChallenge_spec (verifier : string) (pf : Platform) (w : World) :
  generateCodeChallenge verifier pf w
  = (Normal (base64url (sha256 pf (TextEncoder_encode verifier))), w).
Proof.
  unfold generateCodeChallenge, bind, ask, ret.
  rewrite url_safe_base64url. reflexivity.
Qed.

(** [authenticate] stores the new verifier under ["code_verifier"],
    navigates to the authorization URL that carries the challenge, and
    uses up 32 octets of the random source. *)
Lemma authenticate_spec (pf : Platform) (w : World) :
  let verifier := base64url (next_random pf w) in
  let challenge := base64url (sha256 pf (TextEncoder_encode verifier)) in
  let w' := exec authenticate pf w in
  result authenticate pf w = Normal tt
  /\ sessionStorage (browser w')
     = <["code_verifier" := verifier]> (sessionStorage (browser w))
  /\ emitted w w'
     = [Console "[INFO] Starting PKCE Spotify authentication...";
        Navigate (authUrl (origin pf ^^ pathname pf) challenge)]
  /\ entropy_used (browser w') = (entropy_used (browser w) + 32)%nat.
Proof.
  unfold authenticate, exec, result, emitted, bind.
  change (log "Starting PKCE Spotify authentication..." Severity.info pf w)
    with (Normal tt, exec (log "Starting PKCE Spotify authentication..." Severity.info) pf w).
  cbn beta iota. rewrite generateCodeVerifier_spec. cbn beta iota.
  rewrite generateCodeChallenge_spec. cbn beta iota.
  world w. pkce_step. new_events. repeat split.
Qed.

Lemma authenticate_stores (pf : Platform) (w : World) :
  stored_verifier (exec authenticate pf w) = Some (base64url (next_random pf w)).
Proof.
  unfold stored_verifier. destruct (authenticate_spec pf w) as (_ & -> & _).
  apply lookup_insert_eq.
Qed.

(** C1.  [authenticate] draws 32 octets from the random source; the
    verifier it stores is their base64url encoding without padding; the
    challenge in the URL it navigates to is the base64url encoding without
    padding of the SHA-256 digest of the octets of the verifier.  Each
    call draws anew: the next call reads the 32 octets that follow, and
    two calls store the same verifier only when the source gave them the
    same octets. *)
Theorem challenge_is_digest_of_fresh_verifier (pf : Platform) (w : World) :
  let verifier := base64url (next_random pf w) in
  let challenge := base64url (sha256 pf (list_byte_of_string verifier)) in
  let w' := exec authenticate pf w in
  List.length (next_random pf w) = 32%nat
  /\ result generateCodeVerifier pf w = Normal verifier
  /\ result (generateCodeChallenge verifier) pf w = Normal challenge
  /\ stored_verifier w' = Some verifier
  /\ emitted w w'
     = [Console "[INFO] Starting PKCE Spotify authentication...";
        Navigate (authUrl (origin pf ^^ pathname pf) challenge)]
  /\ next_random pf w'
     = map (random_byte pf) (seq (entropy_used (browser w) + 32) 32)
  /\ (forall w2 : World,
        stored_verifier (exec authenticate pf w2) = Some verifier
        <-> next_random pf w2 = next_random pf w).
Proof.
  assert (Hutf8 : TextEncoder_encode (base64url (next_random pf w))
                  = list_byte_of_string (base64url (next_random pf w))).
  { apply TextEncoder_ascii, Base64Facts.encode_ascii. }
  destruct (authenticate_spec pf w) as (_ & _ & Hemitted & Hused).
  cbv zeta in *. rewrite Hutf8 in Hemitted.
  split; [| split; [| split; [| split; [| split; [| split]]]]].
  - unfold next_random. rewrite length_map, length_seq. reflexivity.
  - unfold result. rewrite generateCodeVerifier_spec. reflexivity.
  - unfold result. rewrite generateCodeChallenge_spec, Hutf8. reflexivity.
  - apply authenticate_stores.
  - exact Hemitted.
  - unfold next_random at 1. rewrite Hused. reflexivity.
  - intros w2. rewrite authenticate_stores. split.
    + intros E. apply (inj Some) in E. apply base64url_inj, E.
    + intros E. rewrite E. reflexivity.
Qed.

(** ** The authorization callback *)

(** A non-empty [error] parameter: the callback reports the denial and
    stops there. *)
Lemma error_denies (pf : Platform) (w : World) (answer : Outcome Response)
    (reason : string) :
  params_get "error" (URLSearchParams (search (browser w))) = Some reason ->
  reason <> EmptyString ->
  let w' := exec (handleAuthCallback answer) pf w in
  result (handleAuthCallback answer) pf w = Normal None
  /\ AuthDenied reason w w'
  /\ emitted w w' = [Console ("[ERROR] Authentication error: " ^^ reason)]
  /\ sessionStorage (browser w') = sessionStorage (browser w)
  /\ accessToken (component w') = accessToken (component w).
Proof.
  intros Hget Hne. apply truthy_nonempty in Hne.
  world w.
  unfold handleAuthCallback, exec, result, emitted, AuthDenied, reported, logged,
    bind, read.
  cbn [browser search] in *. rewrite Hget, Hne. step.
  new_events. repeat split.
Qed.

(** A usable code and nothing stored: the callback reports the missing
    verifier and sends nothing. *)
Lemma missing_verifier (pf : Platform) (w : World) (answer : Outcome Response)
    (code : string) :
  code_pending code w ->
  stored_verifier w = None ->
  let w' := exec (handleAuthCallback answer) pf w in
  result (handleAuthCallback answer) pf w = Normal None
  /\ MissingVerifier w w'
  /\ network_calls (emitted w w') = []
  /\ sessionStorage (browser w') = sessionStorage (browser w)
  /\ accessToken (component w') = accessToken (component w).
Proof.
  intros (Hcode & Hne & Herror) Hstored. apply truthy_nonempty in Hne.
  world w.
  unfold handleAuthCallback, exec, result, emitted, MissingVerifier, reported, logged,
    bind, read, try_catch, sessionStorage_getItem, stored_verifier in *.
  cbn [browser search sessionStorage] in *. rewrite Hcode, Herror, Hne. step.
  rewrite Hstored. step.
  new_events. repeat split.
Qed.

(** A usable code, a stored verifier and a response that grants a token:
    one request is sent, the token is kept, the verifier is removed and
    the query string is dropped. *)
Lemma exchange_success (pf : Platform) (w : World) (response : Response)
    (code verifier token : string) :
  code_pending code w ->
  stored_verifier w = Some verifier ->
  verifier <> EmptyString ->
  grants token response ->
  let w' := exec (handleAuthCallback (Returns response)) pf w in
  result (handleAuthCallback (Returns response)) pf w = Normal (Some token)
  /\ network_calls (emitted w w')
     = [token_request code (origin pf ^^ pathname pf) verifier]
  /\ accessToken (component w') = Some token
  /\ sessionStorage (browser w') = delete "code_verifier" (sessionStorage (browser w))
  /\ search (browser w') = EmptyString.
Proof.
  intros (Hcode & Hne & Herror) Hstored Hv (Hok & (data & Hjson & Htoken) & Ht).
  apply truthy_nonempty in Hne, Hv.
  destruct token as [|t0 token]; [congruence | clear Ht].
  world w.
  unfold handleAuthCallback, exec, result, emitted, bind, read, try_catch,
    sessionStorage_getItem, stored_verifier, fetch, REDIRECT_URI, ask in *.
  cbn [browser search sessionStorage] in *. rewrite Hcode, Herror, Hne. step.
  rewrite Hstored, Hv. step. rewrite Hok, Hjson. step. rewrite Htoken. step.
  new_events. repeat split.
Qed.

(** A usable code, a stored verifier and a response that is not a
    success: one request is sent, and the verifier and the query string
    stay as they were. *)
Lemma exchange_refused (pf : Platform) (w : World) (response : Response)
    (code verifier : string) :
  code_pending code w ->
  stored_verifier w = Some verifier ->
  verifier <> EmptyString ->
  ok response = false ->
  let w' := exec (handleAuthCallback (Returns response)) pf w in
  result (handleAuthCallback (Returns response)) pf w = Normal None
  /\ network_calls (emitted w w')
     = [token_request code (origin pf ^^ pathname pf) verifier]
  /\ sessionStorage (browser w') = sessionStorage (browser w)
  /\ search (browser w') = search (browser w).
Proof.
  intros (Hcode & Hne & Herror) Hstored Hv Hok.
  apply truthy_nonempty in Hne, Hv.
  world w.
  unfold handleAuthCallback, exec, result, emitted, bind, read, try_catch,
    sessionStorage_getItem, stored_verifier, fetch, REDIRECT_URI, ask in *.
  cbn [browser search sessionStorage] in *. rewrite Hcode, Herror, Hne. step.
  rewrite Hstored, Hv. step. rewrite Hok. step.
  destruct (json response) as [[data|]|e]; step; new_events; repeat split.
Qed.

(** C3, as the code has it.  When the first [error] parameter of the
    query string has a non-empty value, [handleAuthCallback] reports the
    denial with that value, returns no token and sends nothing: the only
    event is the line on the console. *)
Theorem error_parameter_denies (pf : Platform) (w : World)
    (answer : Outcome Response) (reason : string) :
  params_get "error" (URLSearchParams (search (browser w))) = Some reason ->
  reason <> EmptyString ->
  let w' := exec (handleAuthCallback answer) pf w in
  result (handleAuthCallback answer) pf w = Normal None
  /\ AuthDenied reason w w'
  /\ network_calls (emitted w w') = []
  /\ emitted w w' = [Console ("[ERROR] Authentication error: " ^^ reason)]
  /\ accessToken (component w') = accessToken (component w).
Proof.
  intros Hget Hne.
  destruct (error_denies pf w answer reason Hget Hne) as (Hr & Hd & He & _ & Ha).
  cbv zeta. rewrite He. repeat split; solve [assumption | apply Hd].
Qed.

Lemma error_parameter_denies_witness :
  let w := page_load ∅ "?error=access_denied&code=abc" in
  let answer := Returns (token_response "tok") in
  params_get "error" (URLSearchParams (search (browser w))) = Some "access_denied"
  /\ "access_denied" <> EmptyString
  /\ AuthDenied "access_denied" w (exec (handleAuthCallback answer) sample_platform w)
  /\ network_calls (emitted w (exec (handleAuthCallback answer) sample_platform w)) = [].
Proof.
  assert (Hget : params_get "error"
                   (URLSearchParams
                      (search (browser (page_load ∅ "?error=access_denied&code=abc"))))
                 = Some "access_denied") by (vm_compute; reflexivity).
  assert (Hne : "access_denied" <> EmptyString) by discriminate.
  split; [exact Hget | split; [exact Hne |]].
  destruct (error_parameter_denies sample_platform
              (page_load ∅ "?error=access_denied&code=abc")
              (Returns (token_response "tok")) "access_denied" Hget Hne)
    as (_ & Hd & Hn & _).
  split; [exact Hd | exact Hn].
Defined.

(** C3 as stated fails: the query string [?error=&code=abc] has an
    [error] parameter, yet with a verifier in storage the callback sends
    the token request and returns the token. *)
Lemma empty_error_parameter_exchanges :
  let w := page_load {[ "code_verifier" := "v" ]} "?error=&code=abc" in
  let w' := exec (handleAuthCallback (Returns (token_response "tok"))) sample_platform w in
  params_get "error" (URLSearchParams (search (browser w))) = Some EmptyString
  /\ result (handleAuthCallback (Returns (token_response "tok"))) sample_platform w
     = Normal (Some "tok")
  /\ network_calls (emitted w w') = [token_request "abc" "http://localhost:3000/" "v"]
  /\ accessToken (component w') = Some "tok"
  /\ ~ AuthDenied EmptyString w w'.
Proof.
  repeat split; try (vm_compute; reflexivity).
  intros [H _]. vm_compute in H. discriminate H.
Qed.

(** C4, as the code has it.  When the query string has a non-empty [code],
    no non-empty [error], and session storage holds no verifier,
    [handleAuthCallback] reports the missing verifier, returns no token
    and sends nothing. *)
Theorem code_without_verifier (pf : Platform) (w : World)
    (answer : Outcome Response) (code : string) :
  params_get "code" (URLSearchParams (search (browser w))) = Some code ->
  code <> EmptyString ->
  truthy (params_get "error" (URLSearchParams (search (browser w)))) = false ->
  stored_verifier w = None ->
  let w' := exec (handleAuthCallback answer) pf w in
  result (handleAuthCallback answer) pf w = Normal None
  /\ MissingVerifier w w'
  /\ network_calls (emitted w w') = []
  /\ accessToken (component w') = accessToken (component w).
Proof.
  intros Hcode Hne Herror Hstored.
  destruct (missing_verifier pf w answer code (conj Hcode (conj Hne Herror)) Hstored)
    as (Hr & Hm & Hn & _ & Ha).
  repeat split; solve [assumption | apply Hm].
Qed.

Lemma code_without_verifier_witness :
  let w := page_load ∅ "?code=abc" in
  let answer := Returns (token_response "tok") in
  params_get "code" (URLSearchParams (search (browser w))) = Some "abc"
  /\ "abc" <> EmptyString
  /\ truthy (params_get "error" (URLSearchParams (search (browser w)))) = false
  /\ stored_verifier w = None
  /\ MissingVerifier w (exec (handleAuthCallback answer) sample_platform w)
  /\ network_calls (emitted w (exec (handleAuthCallback answer) sample_platform w)) = [].
Proof.
  assert (Hcode : params_get "code"
                    (URLSearchParams (search (browser (page_load ∅ "?code=abc"))))
                  = Some "abc") by (vm_compute; reflexivity).
  assert (Hne : "abc" <> EmptyString) by discriminate.
  assert (Herror : truthy (params_get "error"
                     (URLSearchParams (search (browser (page_load ∅ "?code=abc")))))
                   = false) by (vm_compute; reflexivity).
  assert (Hstored : stored_verifier (page_load ∅ "?code=abc") = None)
    by (vm_compute; reflexivity).
  split; [exact Hcode | split; [exact Hne | split; [exact Herror | split; [exact Hstored |]]]].
  destruct (code_without_verifier sample_platform (page_load ∅ "?code=abc")
              (Returns (token_response "tok")) "abc" Hcode Hne Herror Hstored)
    as (_ & Hm & Hn & _).
  split; [exact Hm | exact Hn].
Defined.

(** C4 as stated fails on two kinds of query string that contain a [code]
    parameter, with nothing in session storage.  With
    [?error=access_denied&code=abc] the callback reports the denial, not
    a missing verifier.  With [?code=] it does nothing at all. *)
Lemma code_parameter_without_missing_verifier :
  (let w := page_load ∅ "?error=access_denied&code=abc" in
   let w' := exec (handleAuthCallback (Returns (token_response "tok"))) sample_platform w in
   params_get "code" (URLSearchParams (search (browser w))) = Some "abc"
   /\ stored_verifier w = None
   /\ AuthDenied "access_denied" w w'
   /\ ~ MissingVerifier w w')
  /\ (let w := page_load ∅ "?code=" in
      let w' := exec (handleAuthCallback (Returns (token_response "tok"))) sample_platform w in
      params_get "code" (URLSearchParams (search (browser w))) = Some EmptyString
      /\ stored_verifier w = None
      /\ w' = w
      /\ ~ MissingVerifier w w').
Proof.
  split; cbv zeta; repeat split; try (vm_compute; reflexivity);
    intros [H _]; vm_compute in H; discriminate H.
Qed.

(** C2, as the code has it.  After an exchange that yields an access
    token the stored verifier is gone, so the callback run again on the
    same query string, in any world with that storage, reports the
    missing verifier and sends nothing.  Session storage holds verifiers
    under the one key ["code_verifier"]: [authenticate] overwrites what
    was there and touches no other key.  A response that is not a success
    leaves the stored verifier and the query string as they were. *)
Theorem verifier_cleared_by_successful_exchange (pf : Platform) (w : World)
    (response : Response) (code verifier token : string) :
  code_pending code w ->
  stored_verifier w = Some verifier ->
  verifier <> EmptyString ->
  grants token response ->
  let w1 := exec (handleAuthCallback (Returns response)) pf w in
  result (handleAuthCallback (Returns response)) pf w = Normal (Some token)
  /\ network_calls (emitted w w1)
     = [token_request code (origin pf ^^ pathname pf) verifier]
  /\ stored_verifier w1 = None
  /\ (forall (w2 : World) (answer : Outcome Response),
        sessionStorage (browser w2) = sessionStorage (browser w1) ->
        search (browser w2) = search (browser w) ->
        let w3 := exec (handleAuthCallback answer) pf w2 in
        MissingVerifier w2 w3 /\ network_calls (emitted w2 w3) = [])
  /\ (forall w0 : World,
        stored_verifier (exec authenticate pf w0) = Some (base64url (next_random pf w0))
        /\ forall key : string,
             key <> "code_verifier" ->
             sessionStorage (browser (exec authenticate pf w0)) !! key
             = sessionStorage (browser w0) !! key)
  /\ (forall refusal : Response,
        ok refusal = false ->
        let w1' := exec (handleAuthCallback (Returns refusal)) pf w in
        stored_verifier w1' = Some verifier
        /\ search (browser w1') = search (browser w)).
Proof.
  intros Hpending Hstored Hv Hgrants.
  destruct (exchange_success pf w response code verifier token Hpending Hstored Hv Hgrants)
    as (Hr & Hn & _ & Hs & _).
  assert (Hgone : stored_verifier (exec (handleAuthCallback (Returns response)) pf w) = None).
  { unfold stored_verifier. rewrite Hs. apply lookup_delete_eq. }
  cbv zeta. split; [exact Hr | split; [exact Hn | split; [exact Hgone |]]].
  split; [| split].
  - intros w2 answer Hsame Hsearch.
    assert (Hpending2 : code_pending code w2).
    { unfold code_pending in *. rewrite Hsearch. exact Hpending. }
    assert (Hstored2 : stored_verifier w2 = None).
    { unfold stored_verifier in *. rewrite Hsame. exact Hgone. }
    destruct (missing_verifier pf w2 answer code Hpending2 Hstored2) as (_ & Hm & Hn2 & _).
    split; assumption.
  - intros w0. split; [apply authenticate_stores |].
    intros key Hkey. destruct (authenticate_spec pf w0) as (_ & -> & _).
    apply lookup_insert_ne. congruence.
  - intros refusal Hrefused.
    destruct (exchange_refused pf w refusal code verifier Hpending Hstored Hv Hrefused)
      as (_ & _ & Hs' & Hq).
    split; [unfold stored_verifier in *; rewrite Hs'; exact Hstored | exact Hq].
Qed.

Lemma verifier_cleared_by_successful_exchange_witness :
  let w := page_load {[ "code_verifier" := "v" ]} "?code=abc" in
  let w1 := exec (handleAuthCallback (Returns (token_response "tok"))) sample_platform w in
  let w2 := page_load (sessionStorage (browser w1)) "?code=abc" in
  let w3 := exec (handleAuthCallback (Returns (token_response "tok2"))) sample_platform w2 in
  code_pending "abc" w
  /\ stored_verifier w = Some "v"
  /\ "v" <> EmptyString
  /\ grants "tok" (token_response "tok")
  /\ stored_verifier w1 = None
  /\ MissingVerifier w2 w3
  /\ network_calls (emitted w2 w3) = [].
Proof.
  assert (Hpending : code_pending "abc" (page_load {[ "code_verifier" := "v" ]} "?code=abc")).
  { split; [vm_compute; reflexivity | split; [discriminate | vm_compute; reflexivity]]. }
  assert (Hstored : stored_verifier (page_load {[ "code_verifier" := "v" ]} "?code=abc")
                    = Some "v") by (vm_compute; reflexivity).
  assert (Hv : "v" <> EmptyString) by discriminate.
  assert (Hgrants : grants "tok" (token_response "tok")).
  { split; [reflexivity | split; [| discriminate]].
    eexists. split; reflexivity. }
  cbv zeta.
  split; [exact Hpending | split; [exact Hstored | split; [exact Hv | split; [exact Hgrants |]]]].
  destruct (verifier_cleared_by_successful_exchange sample_platform
              (page_load {[ "code_verifier" := "v" ]} "?code=abc")
              (token_response "tok") "abc" "v" "tok" Hpending Hstored Hv Hgrants)
    as (_ & _ & Hgone & Hreplay & _).
  split; [exact Hgone |].
  exact (Hreplay
           (page_load
              (sessionStorage
                 (browser (exec (handleAuthCallback (Returns (token_response "tok")))
                             sample_platform
                             (page_load {[ "code_verifier" := "v" ]} "?code=abc"))))
              "?code=abc")
           (Returns (token_response "tok2")) eq_refl eq_refl).
Defined.

(** C2 as stated fails: an exchange the provider refuses leaves the
    verifier in session storage and the code in the query string, and the
    callback run again after a reload sends the same request with the
    same verifier. *)
Lemma refused_exchange_keeps_verifier :
  let refusal := Returns (error_response 400 "invalid_grant" "Invalid authorization code") in
  let w := page_load {[ "code_verifier" := "v" ]} "?code=abc" in
  let w1 := exec (handleAuthCallback refusal) sample_platform w in
  let w2 := page_load (sessionStorage (browser w1)) (search (browser w1)) in
  let w3 := exec (handleAuthCallback refusal) sample_platform w2 in
  TokenExchangeFailed 400 "Invalid authorization code" w w1
  /\ network_calls (emitted w w1) = [token_request "abc" "http://localhost:3000/" "v"]
  /\ stored_verifier w1 = Some "v"
  /\ search (browser w1) = "?code=abc"
  /\ network_calls (emitted w2 w3) = [token_request "abc" "http://localhost:3000/" "v"]
  /\ ~ MissingVerifier w2 w3.
Proof.
  cbv zeta. repeat split; try (vm_compute; reflexivity).
  intros [H _]. vm_compute in H. discriminate H.
Qed.

(** ** Stopping tracks *)

Lemma released_nil (w : World) : released [] w = w.
Proof.
  destruct w as [c b]; destruct b as [ss q ps live ac sdk eu cr tr].
  unfold released, on_browser, with_live_tracks, with_trace.
  cbn [browser component sessionStorage search players live_tracks audio_contexts
       sdk_ready entropy_used clock_reads trace map].
  change (list_to_set (@nil nat)) with (∅ : gset nat).
  rewrite difference_empty_L, app_nil_r. reflexivity.
Qed.

Lemma released_cons (t : MediaStreamTrack) (ts : list MediaStreamTrack)
    (pf : Platform) (w : World) :
  released ts (exec (stop t) pf w) = released (t :: ts) w.
Proof.
  destruct w as [c b]; destruct b as [ss q ps live ac sdk eu cr tr].
  unfold released, exec, stop, emit, modify, bind, on_browser, with_live_tracks, with_trace.
  cbn [browser component sessionStorage search players live_tracks audio_contexts
       sdk_ready entropy_used clock_reads trace map snd].
  rewrite difference_difference_l_L, <- app_assoc. reflexivity.
Qed.

Lemma forEach_stop (ts : list MediaStreamTrack) (pf : Platform) (w : World) :
  forEach stop ts pf w = (Normal tt, released ts w).
Proof.
  revert w. induction ts as [|t ts IH]; intros w.
  - rewrite released_nil. reflexivity.
  - rewrite <- (released_cons t ts pf). cbn [forEach]. unfold bind at 1.
    change (stop t pf w) with (Normal tt, exec (stop t) pf w).
    apply IH.
Qed.

Lemma existsb_stops (ts : list MediaStreamTrack) :
  existsb uses_web_audio (map (fun t => TrackStop (track_id t)) ts) = false.
Proof. induction ts; [reflexivity | assumption]. Qed.

(** ** The player's state events *)

(** On a player with the listeners of [initializePlayer], a
    [player_state_changed] event runs the listener registered for it, and
    nothing else. *)
Lemma dispatch_state_changed (pf : Platform) (w : World) (target : nat)
    (device : Player) (state : option WebPlaybackState)
    (answer : Outcome (option WebPlaybackState)) :
  players (browser w) !! target = Some device ->
  listeners device = [("initialization_error", on_initialization_error);
                      ("authentication_error", on_authentication_error);
                      ("account_error", on_account_error);
                      ("player_state_changed", on_player_state_changed);
                      ("ready", on_ready);
                      ("not_ready", on_not_ready)] ->
  dispatch target (player_state_changed state) answer pf w
  = handle_state target state answer pf w.
Proof.
  intros Hdevice Hlisteners.
  unfold dispatch, bind, read. cbn beta iota. rewrite Hdevice, Hlisteners.
  cbn [List.filter event_name fst snd String.eqb Ascii.eqb Bool.eqb forEach].
  unfold handle_state, bind.
  destruct (run_listener on_player_state_changed target (player_state_changed state)
              answer pf w) as [[[]|e] w']; reflexivity.
Qed.

(** C5.  Whatever the session state was, a [player_state_changed] event
    without payload sets [currentTrack] to absent and [isPaused] to true;
    nothing else changes, and the listener returns. *)
Theorem absent_state_resets_track (pf : Platform) (w : World) (spotifyPlayer : nat)
    (answer : Outcome (option WebPlaybackState)) :
  let w' := exec (handle_state spotifyPlayer None answer) pf w in
  currentTrack (component w') = None
  /\ isPaused (component w') = true
  /\ w' = on_component (fun c => with_isPaused true (with_currentTrack None c)) w
  /\ result (handle_state spotifyPlayer None answer) pf w = Normal tt.
Proof. repeat split. Qed.

(** C6, as the code has it.  An event with the payload of the claim gives
    [isPaused = true] and [currentTrack = "Y - X"].  In general the state
    after an event without payload, or with a current track that has an
    artist, is fixed by the event alone: absent and paused in the first
    case, the name of the first artist, [" - "] and the name of the track,
    with the [paused] of the event, in the second.  An event whose
    payload has no current track only updates [isPaused] and leaves
    [currentTrack] as it was. *)
Theorem track_follows_state_event (pf : Platform) (w : World) (spotifyPlayer : nat)
    (answer : Outcome (option WebPlaybackState)) :
  (let w' := exec (handle_state spotifyPlayer (Some sample_track) answer) pf w in
   isPaused (component w') = true /\ currentTrack (component w') = Some "Y - X")
  /\ (let w' := exec (handle_state spotifyPlayer None answer) pf w in
      isPaused (component w') = true /\ currentTrack (component w') = None)
  /\ (forall (p : bool) (title : string) (first : Artist) (others : list Artist),
        let state := {| paused := p;
                        track_window :=
                          {| current_track :=
                               Some {| track_name := title;
                                       artists := first :: others |} |} |} in
        let w' := exec (handle_state spotifyPlayer (Some state) answer) pf w in
        isPaused (component w') = p
        /\ currentTrack (component w') = Some (artist_name first ^^ " - " ^^ title))
  /\ (forall p : bool,
        let state := {| paused := p; track_window := {| current_track := None |} |} in
        let w' := exec (handle_state spotifyPlayer (Some state) answer) pf w in
        isPaused (component w') = p
        /\ currentTrack (component w') = currentTrack (component w)).
Proof.
  world w.
  split; [| split; [| split]].
  - destruct answer as [[?|]|?]; split; reflexivity.
  - split; reflexivity.
  - intros p title first others. destruct answer as [[?|]|?]; split; reflexivity.
  - intros p. destruct answer as [[?|]|?]; split; reflexivity.
Qed.

(** C6 as stated fails: after ["Y - X"] has been shown, an event whose
    payload has no current track leaves ["Y - X"] in place, while the same
    event on a fresh page leaves no track; [currentTrack] is not a
    function of the event. *)
Lemma stale_track_after_trackless_event :
  let w0 := page_load ∅ EmptyString in
  let w1 := exec (handle_state 0 (Some sample_track) (Returns (Some sample_track)))
              sample_platform w0 in
  let event := handle_state 0 (Some trackless_state) (Returns (Some trackless_state)) in
  currentTrack (component w1) = Some "Y - X"
  /\ currentTrack (component (exec event sample_platform w1)) = Some "Y - X"
  /\ currentTrack (component (exec event sample_platform w0)) = None
  /\ ~ (forall w w' : World,
          currentTrack (component (exec event sample_platform w))
          = currentTrack (component (exec event sample_platform w'))).
Proof.
  repeat split; try reflexivity.
  intros H.
  specialize (H (exec (handle_state 0 (Some sample_track) (Returns (Some sample_track)))
                   sample_platform (page_load ∅ EmptyString))
                (page_load ∅ EmptyString)).
  vm_compute in H. discriminate H.
Qed.

(** ** The token callback *)

Lemma alter_last {A : Type} (f : A -> A) (l : list A) (x : A) :
  alter f (List.length l) (l ++ [x])%list = (l ++ [f x])%list.
Proof. induction l as [|y l IH]; [reflexivity |]. cbn. f_equal. exact IH. Qed.

Lemma lookup_last {A : Type} (l : list A) (x : A) :
  (l ++ [x])%list !! List.length l = Some x.
Proof. induction l as [|y l IH]; [reflexivity | exact IH]. Qed.

(** [initializePlayer] on a usable token makes one player, the last of
    the registry, whose callback closes over that token and which has the
    six listeners, and makes it the player of the component. *)
Lemma initializePlayer_spec (pf : Platform) (w : World) (token : string)
    (connected : Outcome bool) :
  token <> EmptyString ->
  let w' := exec (initializePlayer (Some token) connected) pf w in
  player (component w') = Some (List.length (players (browser w)))
  /\ players (browser w')
     = (players (browser w)
        ++ [ {| player_name := "Beats & Repeats Test Player";
                getOAuthToken := token;
                volume := 1 # 2;
                listeners := [("initialization_error", on_initialization_error);
                              ("authentication_error", on_authentication_error);
                              ("account_error", on_account_error);
                              ("player_state_changed", on_player_state_changed);
                              ("ready", on_ready);
                              ("not_ready", on_not_ready)] |} ])%list
  /\ accessToken (component w') = accessToken (component w)
  /\ audioCaptureResult (component w') = audioCaptureResult (component w)
  /\ sdk_ready (browser w') = sdk_ready (browser w).
Proof.
  intros Hne. apply truthy_nonempty in Hne.
  world w. unfold initializePlayer. rewrite Hne.
  unfold exec, bind, new_Player, addListener, read, modify, and_then.
  destruct connected as [[]|e]; lazy -[alter list_alter app List.length str_cat];
    rewrite !alter_last; repeat split.
Qed.

(** ** The capture probe *)

(** C7.  When [getDisplayMedia] throws, [testAudioCapture] still returns,
    the verdict it stores has [displayMedia = false] and the message of
    the error, and the [MediaRecorder] check is made after the failure
    has been logged: its outcome is the [mediaRecorder] field of the
    verdict. *)
Theorem capture_failure_is_recorded (pf : Platform) (w : World) (e : Error)
    (recorder : option (Outcome bool)) :
  let probe := testAudioCapture (Throws e) recorder in
  let w' := exec probe pf w in
  result probe pf w = Normal tt
  /\ audioCaptureResult (component w')
     = Some {| displayMedia := false;
               webAudio := true;
               mediaRecorder := recorder_supported recorder;
               capture_error := Some (error_message e) |}
  /\ emitted w w'
     = ([Console "[WARNING] 🔊 CRITICAL TEST: Testing audio capture capabilities...";
         Console "[INFO] Testing getDisplayMedia for system audio...";
         GetDisplayMedia false true;
         Console ("[ERROR] ❌ System audio capture failed: " ^^ error_message e)]
        ++ recorder_check recorder
        ++ [Console "[ERROR] 🔴 VERDICT: Audio capture NOT possible - Recommend built-in player"])%list.
Proof.
  world w. unfold testAudioCapture, exec, result, emitted, bind, try_catch.
  destruct recorder as [[[]|]|]; step;
    (split; [reflexivity | split; [reflexivity |]]); new_events; reflexivity.
Qed.

(** Whatever the platform answers, [testAudioCapture] returns and stores
    a verdict whose [webAudio] is true, and it makes no call of the Web
    Audio API. *)
Lemma testAudioCapture_verdict (pf : Platform) (w : World)
    (display : Outcome MediaStream) (recorder : option (Outcome bool)) :
  let probe := testAudioCapture display recorder in
  let w' := exec probe pf w in
  result probe pf w = Normal tt
  /\ (exists r, audioCaptureResult (component w') = Some r /\ webAudio r = true)
  /\ existsb uses_web_audio (emitted w w') = false.
Proof.
  world w. unfold testAudioCapture, exec, result, emitted, bind, try_catch.
  destruct display as [stream|e]; step.
  - destruct (0 <? List.length (getAudioTracks stream))%nat eqn:Haudio; step.
    + rewrite forEach_stop. unfold released. step.
      destruct recorder as [[[]|]|]; step;
        (split; [reflexivity | split; [eexists; split; reflexivity |]]);
        new_events; cbn [app existsb uses_web_audio orb];
        rewrite existsb_app, existsb_stops; reflexivity.
    + destruct recorder as [[[]|]|]; step;
        (split; [reflexivity | split; [eexists; split; reflexivity |]]);
        new_events; reflexivity.
  - destruct recorder as [[[]|]|]; step;
      (split; [reflexivity | split; [eexists; split; reflexivity |]]);
      new_events; reflexivity.
Qed.

(** The probe leaves the credential and the players alone. *)
Lemma testAudioCapture_frame (display : Outcome MediaStream)
    (recorder : option (Outcome bool)) (pf : Platform) (w : World) :
  let w' := exec (testAudioCapture display recorder) pf w in
  accessToken (component w') = accessToken (component w)
  /\ player (component w') = player (component w)
  /\ players (browser w') = players (browser w)
  /\ sdk_ready (browser w') = sdk_ready (browser w).
Proof.
  world w. unfold testAudioCapture, exec, bind, try_catch.
  destruct display as [stream|e]; step.
  - destruct (0 <? List.length (getAudioTracks stream))%nat; step.
    + rewrite forEach_stop. unfold released.
      destruct recorder as [[[]|]|]; repeat split.
    + destruct recorder as [[[]|]|]; repeat split.
  - destruct recorder as [[[]|]|]; repeat split.
Qed.

(** ** The full-mixing probe *)

(** When every step succeeds the probe stops the tracks of both streams
    and closes the audio context it made. *)
Lemma mixing_success_releases (pf : Platform) (w : World) (mic system : MediaStream) :
  let probe := testFullAudioMixing (Returns mic) (Returns system)
                 (Returns tt) (Returns tt) (Returns tt) in
  let w' := exec probe pf w in
  let ids (s : MediaStream) : gset nat := list_to_set (map track_id (getTracks s)) in
  result probe pf w = Normal tt
  /\ live_tracks (browser w')
     = (live_tracks (browser w) ∪ ids mic ∪ ids system) ∖ ids mic ∖ ids system
  /\ audio_contexts (browser w') = audio_contexts (browser w).
Proof.
  world w. unfold testFullAudioMixing, exec, result, bind, try_catch. step.
  rewrite forEach_stop. unfold released. step.
  rewrite forEach_stop. unfold released. step.
  repeat split.
Qed.

(** C8 fails on the code.  The microphone is granted and the system-audio
    request is refused: the probe logs the failure and returns with the
    microphone track still live, no track having been stopped.  Both
    streams are granted and the first [createMediaStreamSource] throws:
    both tracks stay live and the audio context stays open. *)
Theorem mixing_failure_keeps_devices :
  let w := page_load ∅ EmptyString in
  let refused := testFullAudioMixing (Returns microphone) (Throws denied)
                   (Returns tt) (Returns tt) (Returns tt) in
  let broken := testFullAudioMixing (Returns microphone) (Returns screen_share)
                  (Returns tt) (Throws denied) (Returns tt) in
  (result refused sample_platform w = Normal tt
   /\ live_tracks (browser (exec refused sample_platform w)) = {[ 1%nat ]}
   /\ emitted w (exec refused sample_platform w)
      = [Console "[WARNING] 🔀 Testing full audio mixing (mic + system)...";
         GetUserMedia true;
         Console "[INFO] ✅ Microphone access granted";
         GetDisplayMedia false true;
         Console "[ERROR] ❌ Audio mixing failed: Permission denied"])
  /\ (result broken sample_platform w = Normal tt
      /\ live_tracks (browser (exec broken sample_platform w)) = {[ 1%nat; 2%nat ]}
      /\ audio_contexts (browser (exec broken sample_platform w)) = 1%nat).
Proof. vm_compute. repeat split. Qed.

(** ** The page as a whole *)

Lemma forEach_core {A : Type} (f : A -> Js unit) (l : list A) (pf : Platform) :
  (forall x w, core (exec (f x) pf w) = core w) ->
  forall w, core (exec (forEach f l) pf w) = core w.
Proof.
  intros Hf. induction l as [|x l IH]; intros w; [reflexivity |].
  specialize (Hf x w). unfold exec in *. cbn [forEach]. unfold bind.
  destruct (f x pf w) as [[[]|e] w1]; cbn [snd] in *.
  - rewrite IH. exact Hf.
  - exact Hf.
Qed.

Lemma run_listener_core (l : Listener) (p : nat) (e : DeviceEvent)
    (answer : Outcome (option WebPlaybackState)) (pf : Platform) (w : World) :
  core (exec (run_listener l p e answer) pf w) = core w.
Proof.
  world w. destruct l, e; try reflexivity.
  destruct state as [[paused [[[title [|first others]]|]]]|];
    destruct answer as [[?|]|?]; reflexivity.
Qed.

Lemma dispatch_core (target : nat) (e : DeviceEvent)
    (answer : Outcome (option WebPlaybackState)) (pf : Platform) (w : World) :
  core (exec (dispatch target e answer) pf w) = core w.
Proof.
  unfold dispatch, exec, bind, read. cbn beta iota.
  apply (forEach_core (fun nl => run_listener (snd nl) target e answer)).
  intros x w'. apply run_listener_core.
Qed.

Lemma togglePlayback_core (answer : Outcome unit) (pf : Platform) (w : World) :
  core (exec (togglePlayback answer) pf w) = core w.
Proof. world w. destruct player0, answer as [[]|?]; reflexivity. Qed.

Lemma transferPlayback_core (answer : Outcome Response) (pf : Platform) (w : World) :
  core (exec (transferPlayback answer) pf w) = core w.
Proof.
  world w. destruct deviceId0 as [[|? ?]|], accessToken0 as [[|? ?]|]; try reflexivity.
  destruct answer as [response|?]; [| reflexivity].
  unfold transferPlayback, exec, bind, read, try_catch, fetch. step.
  destruct (ok response); reflexivity.
Qed.

Lemma testFullAudioMixing_core (mic system : Outcome MediaStream)
    (context micSource systemSource : Outcome unit) (pf : Platform) (w : World) :
  core (exec (testFullAudioMixing mic system context micSource systemSource) pf w)
  = core w.
Proof.
  world w. unfold testFullAudioMixing, exec, bind, try_catch.
  destruct mic as [micStream|?]; [| reflexivity].
  destruct system as [systemStream|?]; [| reflexivity].
  destruct context as [[]|?]; [| reflexivity].
  destruct micSource as [[]|?]; [| reflexivity].
  destruct systemSource as [[]|?]; [| reflexivity].
  step. rewrite forEach_stop. unfold released. step.
  rewrite forEach_stop. reflexivity.
Qed.

Lemma authenticate_core (pf : Platform) (w : World) :
  core (exec authenticate pf w) = core w.
Proof.
  unfold authenticate, exec, bind.
  change (log "Starting PKCE Spotify authentication..." Severity.info pf w)
    with (Normal tt, exec (log "Starting PKCE Spotify authentication..." Severity.info) pf w).
  cbn beta iota. rewrite generateCodeVerifier_spec. cbn beta iota.
  rewrite generateCodeChallenge_spec. world w. reflexivity.
Qed.

(** [handleAuthCallback] always returns; when it returns a usable token,
    that token is the credential of the component. *)
Lemma handleAuthCallback_token (answer : Outcome Response) (pf : Platform) (w : World) :
  let w' := exec (handleAuthCallback answer) pf w in
  audioCaptureResult (component w') = audioCaptureResult (component w)
  /\ player (component w') = player (component w)
  /\ players (browser w') = players (browser w)
  /\ sdk_ready (browser w') = sdk_ready (browser w)
  /\ exists token, result (handleAuthCallback answer) pf w = Normal token
       /\ (truthy token = true -> accessToken (component w') = token).
Proof.
  world w.
  unfold handleAuthCallback, exec, result, bind, read, try_catch, sessionStorage_getItem,
    fetch, REDIRECT_URI, ask.
  cbn [browser search sessionStorage].
  destruct (truthy (params_get "error" (URLSearchParams search0))).
  { step. repeat split. eexists; split; [reflexivity | discriminate]. }
  destruct (truthy (params_get "code" (URLSearchParams search0))).
  2: { step. repeat split. eexists; split; [reflexivity | discriminate]. }
  step. destruct (storage0 !! "code_verifier") as [[|c v]|]; step;
    try (repeat split; eexists; split; [reflexivity | discriminate]).
  destruct answer as [response|e]; step;
    try (repeat split; eexists; split; [reflexivity | discriminate]).
  destruct (ok response); step;
    destruct (json response) as [[data|]|e]; step;
    try (repeat split; eexists; split; [reflexivity | discriminate]).
  destruct (TokenJson.access_token data) as [| |[|? ?]]; step;
    repeat split; eexists; split; try reflexivity; try discriminate.
Qed.

Lemma credential_core (w w' : World) :
  core w' = core w -> credential_shared w -> credential_shared w'.
Proof.
  unfold core, credential_shared. intros E. injection E as E1 E2 E3 E4 E5.
  rewrite E1, E3, E4, E5. tauto.
Qed.

Lemma verdict_core (w w' : World) :
  core w' = core w -> verdict_has_web_audio w' = verdict_has_web_audio w.
Proof.
  unfold core, verdict_has_web_audio. intros E. injection E as E1 E2 E3 E4 E5.
  rewrite E2. reflexivity.
Qed.

(** The invariants hold once the effect of a fresh page has run. *)
Lemma mount_invariant (pf : Platform) (storage : gmap string string) (query : string)
    (answer : Outcome Response) :
  let w := exec (mount answer) pf (page_load storage query) in
  credential_shared w /\ verdict_has_web_audio w = true.
Proof.
  cbv zeta. unfold mount, exec, bind.
  set (w0 := snd (log "🚀 React Spotify Test initialized - Following official pattern"
                    Severity.info pf (page_load storage query))).
  change (log "🚀 React Spotify Test initialized - Following official pattern"
            Severity.info pf (page_load storage query)) with (Normal tt, w0).
  cbn beta iota.
  destruct (handleAuthCallback_token answer pf w0) as (Hv & Hp & Hps & Hsdk & token & Hr & Ht).
  unfold exec, result in *.
  destruct (handleAuthCallback answer pf w0) as [r w1]. cbn [fst snd] in *. subst r.
  destruct (truthy token) eqn:Htruthy.
  - specialize (Ht eq_refl).
    destruct w1 as [c1 b1]. unfold credential_shared, verdict_has_web_audio.
    cbn in *. rewrite Hv, Hp, Hps. destruct b1; cbn in *.
    split; [split; [| split] |].
    + intros t E. injection E as <-. split; assumption.
    + constructor.
    + intros p E. discriminate E.
    + reflexivity.
  - destruct w1 as [c1 b1]. unfold credential_shared, verdict_has_web_audio.
    cbn in *. rewrite Hv, Hp, Hps, Hsdk.
    split; [split; [| split] |].
    + intros t E. discriminate E.
    + constructor.
    + intros p E. discriminate E.
    + reflexivity.
Qed.

(** The SDK calling back makes a player that holds the credential. *)
Lemma sdk_ready_invariant (connected : Outcome bool) (pf : Platform) (w : World) :
  credential_shared w ->
  credential_shared (exec (onSpotifyWebPlaybackSDKReady connected) pf w)
  /\ verdict_has_web_audio (exec (onSpotifyWebPlaybackSDKReady connected) pf w)
     = verdict_has_web_audio w.
Proof.
  intros (Hsdk & Hplayers & Hplayer).
  unfold onSpotifyWebPlaybackSDKReady, exec, bind, read. cbn beta iota.
  destruct (sdk_ready (browser w)) as [token|] eqn:Hready.
  2: { change (snd (ret tt pf w)) with w. split; [| reflexivity].
       unfold credential_shared. rewrite Hready. split; [| split]; assumption. }
  destruct (Hsdk token eq_refl) as (Htruthy & Htoken).
  destruct token as [[|c t]|]; try discriminate Htruthy.
  set (w0 := snd (log "🎵 Spotify Web Playback SDK loaded (official pattern)"
                    Severity.info pf w)).
  change (log "🎵 Spotify Web Playback SDK loaded (official pattern)" Severity.info pf w)
    with (Normal tt, w0).
  cbn beta iota.
  assert (E1 : accessToken (component w0) = accessToken (component w)) by reflexivity.
  assert (E2 : audioCaptureResult (component w0) = audioCaptureResult (component w))
    by reflexivity.
  assert (E4 : players (browser w0) = players (browser w)) by reflexivity.
  assert (E5 : sdk_ready (browser w0) = sdk_ready (browser w)) by reflexivity.
  destruct (initializePlayer_spec pf w0 (String c t) connected ltac:(discriminate))
    as (Hp & Hps & Ha & Hv & Hs).
  unfold exec in *. cbv zeta in *.
  set (w1 := snd (initializePlayer (Some (String c t)) connected pf w0)) in *.
  unfold credential_shared, verdict_has_web_audio.
  rewrite Hp, Hps, Ha, Hv, Hs, E1, E2, E4, E5, Hready.
  split; [split; [| split] |].
  - intros token E. injection E as <-. split; [reflexivity | exact Htoken].
  - apply Forall_app. split; [exact Hplayers |].
    constructor; [| constructor]. cbn. symmetry. exact Htoken.
  - intros p E. injection E as <-. rewrite length_app. cbn. lia.
  - reflexivity.
Qed.

(** Every action keeps the invariants. *)
Lemma perform_invariant (a : Action) (pf : Platform) (w : World) :
  credential_shared w /\ verdict_has_web_audio w = true ->
  credential_shared (exec (perform a) pf w)
  /\ verdict_has_web_audio (exec (perform a) pf w) = true.
Proof.
  intros (Hc & Hv).
  assert (Hcore : forall w', core w' = core w ->
            credential_shared w' /\ verdict_has_web_audio w' = true).
  { intros w' E. split; [exact (credential_core w w' E Hc) |].
    rewrite (verdict_core w w' E). exact Hv. }
  destruct a as [| answer | answer | display recorder
                 | mic system context micSource systemSource | | connected
                 | target e answer]; unfold perform.
  - apply Hcore, authenticate_core.
  - unfold exec, bind, read. cbn beta iota.
    destruct (player (component w)); [| auto].
    apply Hcore, togglePlayback_core.
  - unfold exec, bind, read. cbn beta iota.
    destruct (truthy (deviceId (component w))); [| auto].
    apply Hcore, transferPlayback_core.
  - unfold exec, bind, read. cbn beta iota.
    destruct (player (component w)); [| auto].
    destruct (testAudioCapture_frame display recorder pf w) as (Ea & Ep & Eps & Es).
    destruct (testAudioCapture_verdict pf w display recorder) as (_ & (r & Hr & Hweb) & _).
    unfold exec in *. cbv zeta in *.
    unfold credential_shared, verdict_has_web_audio in *.
    rewrite Ea, Ep, Eps, Es, Hr. split; [exact Hc | exact Hweb].
  - unfold exec, bind, read. cbn beta iota.
    destruct (player (component w)); [| auto].
    apply Hcore, testFullAudioMixing_core.
  - apply Hcore. reflexivity.
  - destruct (sdk_ready_invariant connected pf w Hc) as (Hc' & Hv').
    split; [exact Hc' | rewrite Hv'; exact Hv].
  - apply Hcore, dispatch_core.
Qed.

Lemma run_page_invariant (pf : Platform) (storage : gmap string string) (query : string)
    (answer : Outcome Response) (actions : list Action) :
  credential_shared (run_page pf storage query answer actions)
  /\ verdict_has_web_audio (run_page pf storage query answer actions) = true.
Proof.
  unfold run_page.
  generalize (mount_invariant pf storage query answer). cbv zeta.
  generalize (exec (mount answer) pf (page_load storage query)) as w.
  induction actions as [|a actions IH]; intros w Hw; [exact Hw |].
  cbn [fold_left]. apply IH, perform_invariant, Hw.
Qed.

(** In the running page the token handed to the device is the credential
    of the component: the component never replaces its credential once
    the player is made. *)
Lemma page_supplies_credential (pf : Platform) (storage : gmap string string)
    (query : string) (answer : Outcome Response) (actions : list Action) :
  let w := run_page pf storage query answer actions in
  match player (component w) with
  | Some _ => supplied_token w = accessToken (component w)
  | None => supplied_token w = None
  end.
Proof.
  cbv zeta.
  destruct (run_page_invariant pf storage query answer actions) as ((_ & Hall & Hp) & _).
  unfold supplied_token.
  destruct (player (component (run_page pf storage query answer actions))) as [p|];
    [| reflexivity].
  specialize (Hp p eq_refl). apply lookup_lt_is_Some_2 in Hp as [device Hdevice].
  rewrite Hdevice. rewrite List.Forall_forall in Hall.
  apply Hall. apply list_elem_of_In. apply list_elem_of_lookup. eauto.
Qed.

(** An action leaves the credential as it is and the players made so far
    as they are; the SDK calling back may add one. *)
Lemma perform_lifetime (a : Action) (pf : Platform) (w : World) :
  accessToken (component (exec (perform a) pf w)) = accessToken (component w)
  /\ players (browser w) `prefix_of` players (browser (exec (perform a) pf w)).
Proof.
  assert (Hcore : forall w', core w' = core w ->
            accessToken (component w') = accessToken (component w)
            /\ players (browser w) `prefix_of` players (browser w')).
  { intros w' E. unfold core in E. injection E as E1 _ _ E4 _.
    rewrite E1, E4. split; reflexivity. }
  destruct a as [| answer | answer | display recorder
                 | mic system context micSource systemSource | | connected
                 | target e answer]; unfold perform.
  - apply Hcore, authenticate_core.
  - unfold exec, bind, read. cbn beta iota.
    destruct (player (component w)); [| apply Hcore; reflexivity].
    apply Hcore, togglePlayback_core.
  - unfold exec, bind, read. cbn beta iota.
    destruct (truthy (deviceId (component w))); [| apply Hcore; reflexivity].
    apply Hcore, transferPlayback_core.
  - unfold exec, bind, read. cbn beta iota.
    destruct (player (component w)); [| apply Hcore; reflexivity].
    destruct (testAudioCapture_frame display recorder pf w) as (Ea & _ & Eps & _).
    unfold exec in *. cbv zeta in *. rewrite Ea, Eps. split; reflexivity.
  - unfold exec, bind, read. cbn beta iota.
    destruct (player (component w)); [| apply Hcore; reflexivity].
    apply Hcore, testFullAudioMixing_core.
  - apply Hcore. reflexivity.
  - unfold onSpotifyWebPlaybackSDKReady, exec, bind, read. cbn beta iota.
    destruct (sdk_ready (browser w)) as [token|]; [| apply Hcore; reflexivity].
    set (w0 := snd (log "🎵 Spotify Web Playback SDK loaded (official pattern)"
                      Severity.info pf w)).
    change (log "🎵 Spotify Web Playback SDK loaded (official pattern)" Severity.info pf w)
      with (Normal tt, w0).
    cbn beta iota.
    assert (E1 : accessToken (component w0) = accessToken (component w)) by reflexivity.
    assert (E4 : players (browser w0) = players (browser w)) by reflexivity.
    destruct token as [[|c t]|];
      [ rewrite <- E1, <- E4; split; reflexivity
      | | rewrite <- E1, <- E4; split; reflexivity ].
    destruct (initializePlayer_spec pf w0 (String c t) connected ltac:(discriminate))
      as (_ & Hps & Ha & _).
    unfold exec in *. cbv zeta in *. rewrite Hps, Ha, E1, E4.
    split; [reflexivity | apply prefix_app_r; reflexivity].
  - apply Hcore, dispatch_core.
Qed.

(** The same over any number of actions. *)
Lemma actions_lifetime (actions : list Action) (pf : Platform) (w : World) :
  let w' := fold_left (fun w a => exec (perform a) pf w) actions w in
  accessToken (component w') = accessToken (component w)
  /\ players (browser w) `prefix_of` players (browser w').
Proof.
  cbv zeta. revert w.
  induction actions as [|a actions IH]; intros w; [split; reflexivity |].
  cbn [fold_left].
  destruct (perform_lifetime a pf w) as (Ha & Hp).
  destruct (IH (exec (perform a) pf w)) as (Ha' & Hp').
  split; [rewrite Ha', Ha; reflexivity | etransitivity; eassumption].
Qed.

(** C9.  On every page and at every moment of its life, each token
    callback installed so far hands the device, each time it is asked,
    the access token the component holds at that moment, and so does the
    callback of the player the component holds.  Whatever happens later
    on the page, the players made so far stay as they are and the
    credential stays the same, so that what their callbacks hand over is
    still the latest credential the page knows.  The callback closes
    over the token [initializePlayer] was given; since nothing on the
    page replaces the credential once it is set, the two never differ. *)
Theorem token_callback_supplies_current_credential (pf : Platform)
    (storage : gmap string string) (query : string) (answer : Outcome Response)
    (actions later : list Action) :
  let page := run_page pf storage query answer actions in
  let page' := run_page pf storage query answer (actions ++ later) in
  Forall (fun device => request_token device Some = accessToken (component page))
    (players (browser page))
  /\ match player (component page) with
     | Some _ => supplied_token page = accessToken (component page)
     | None => supplied_token page = None
     end
  /\ players (browser page) `prefix_of` players (browser page')
  /\ accessToken (component page') = accessToken (component page)
  /\ Forall (fun device => request_token device Some = accessToken (component page'))
       (players (browser page)).
Proof.
  cbv zeta.
  destruct (run_page_invariant pf storage query answer actions) as ((_ & Hall & _) & _).
  assert (Hlater : run_page pf storage query answer (actions ++ later)
                   = fold_left (fun w a => exec (perform a) pf w) later
                       (run_page pf storage query answer actions)).
  { unfold run_page. apply fold_left_app. }
  rewrite Hlater.
  destruct (actions_lifetime later pf (run_page pf storage query answer actions))
    as (Ha & Hp).
  split; [exact Hall |].
  split; [apply page_supplies_credential |].
  split; [exact Hp |].
  split; [exact Ha |].
  rewrite Ha. exact Hall.
Qed.

(** A page that obtains the token ["A"], is told that the SDK has loaded
    and then goes on: the device is handed ["A"], the credential of the
    page, before and after. *)
Lemma token_callback_supplies_current_credential_witness :
  let actions := [sdk_loaded (Returns true)] in
  let later := [device_event 0 (ready "dev1") (Returns None); click_login;
                click_transfer (Returns (token_response "B"))] in
  let page := run_page sample_platform {[ "code_verifier" := "v" ]} "?code=abc"
                (Returns (token_response "A")) actions in
  let page' := run_page sample_platform {[ "code_verifier" := "v" ]} "?code=abc"
                 (Returns (token_response "A")) (actions ++ later) in
  accessToken (component page) = Some "A"
  /\ supplied_token page = accessToken (component page)
  /\ accessToken (component page') = Some "A"
  /\ supplied_token page' = Some "A".
Proof.
  cbv zeta.
  destruct (token_callback_supplies_current_credential sample_platform
              {[ "code_verifier" := "v" ]} "?code=abc" (Returns (token_response "A"))
              [sdk_loaded (Returns true)]
              [device_event 0 (ready "dev1") (Returns None); click_login;
               click_transfer (Returns (token_response "B"))])
    as (_ & Hnow & _ & Hsame & _).
  assert (Htoken : accessToken (component (run_page sample_platform
                     {[ "code_verifier" := "v" ]} "?code=abc"
                     (Returns (token_response "A")) [sdk_loaded (Returns true)]))
                   = Some "A") by (vm_compute; reflexivity).
  split; [exact Htoken |].
  split; [exact Hnow |].
  split; [rewrite Hsame; exact Htoken |].
  vm_compute. reflexivity.
Defined.

(** C10.  Whatever the platform answers and whatever the world was,
    [testAudioCapture] returns and stores a verdict whose [webAudio] is
    true, without any call of the Web Audio API; and whatever happens to a
    page, the verdict it holds, if any, has [webAudio] true. *)
Theorem web_audio_always_reported (pf : Platform) (w : World)
    (display : Outcome MediaStream) (recorder : option (Outcome bool)) :
  let probe := testAudioCapture display recorder in
  let w' := exec probe pf w in
  result probe pf w = Normal tt
  /\ (exists r, audioCaptureResult (component w') = Some r /\ webAudio r = true)
  /\ existsb uses_web_audio (emitted w w') = false
  /\ (forall (storage : gmap string string) (query : string)
             (answer : Outcome Response) (actions : list Action),
        verdict_has_web_audio (run_page pf storage query answer actions) = true).
Proof.
  destruct (testAudioCapture_verdict pf w display recorder) as (Hr & Hv & He).
  cbv zeta. split; [exact Hr | split; [exact Hv | split; [exact He |]]].
  intros storage query answer actions.
  apply run_page_invariant.
Qed.

(** * Further properties of the component *)

(** ** Relations kept by a body *)

Section Keeps.
Context (R : World -> World -> Prop) (R_refl : forall w, R w w)
  (R_trans : forall w1 w2 w3, R w1 w2 -> R w2 w3 -> R w1 w3).

Lemma keeps_ret {A : Type} (v : A) : keeps R (ret v).
Proof. intros pf w. apply R_refl. Qed.

Lemma keeps_throw {A : Type} (e : Error) : keeps R (@throw A e).
Proof. intros pf w. apply R_refl. Qed.

Lemma keeps_read {A : Type} (f : World -> A) : keeps R (read f).
Proof. intros pf w. apply R_refl. Qed.

Lemma keeps_ask {A : Type} (f : Platform -> A) : keeps R (ask f).
Proof. intros pf w. apply R_refl. Qed.

Lemma keeps_await {A : Type} (o : Outcome A) : keeps R (await o).
Proof. destruct o; intros pf w; apply R_refl. Qed.

Lemma keeps_bind {A B : Type} (c : Js A) (k : A -> Js B) :
  keeps R c -> (forall v, keeps R (k v)) -> keeps R (bind c k).
Proof.
  intros Hc Hk pf w. specialize (Hc pf w). unfold exec, bind in *.
  destruct (c pf w) as [[v|e] w1]; cbn [snd] in *; [| exact Hc].
  exact (R_trans _ _ _ Hc (Hk v pf w1)).
Qed.

Lemma keeps_try_catch {A : Type} (block : Js A) (handler : Error -> Js A) :
  keeps R block -> (forall e, keeps R (handler e)) -> keeps R (try_catch block handler).
Proof.
  intros Hc Hk pf w. specialize (Hc pf w). unfold exec, try_catch in *.
  destruct (block pf w) as [[v|e] w1]; cbn [snd] in *; [exact Hc |].
  exact (R_trans _ _ _ Hc (Hk e pf w1)).
Qed.

Lemma keeps_and_then {A : Type} (o : Outcome A) (callback : A -> Js unit) :
  (forall v, keeps R (callback v)) -> keeps R (and_then o callback).
Proof. intros Hk. destruct o; [apply Hk | apply keeps_ret]. Qed.

Lemma keeps_forEach {A : Type} (f : A -> Js unit) (l : list A) :
  (forall x, keeps R (f x)) -> keeps R (forEach f l).
Proof.
  intros Hf. induction l as [|x l IH]; [apply keeps_ret |].
  cbn [forEach]. apply keeps_bind; [apply Hf | intros _; exact IH].
Qed.

End Keeps.

Ltac project :=
  cbn [component browser on_component on_browser
       authStatus player deviceId accessToken isPaused currentTrack logs
       audioCaptureResult sessionStorage search players live_tracks audio_contexts
       sdk_ready entropy_used clock_reads trace
       with_authStatus with_player with_deviceId with_accessToken with_isPaused
       with_currentTrack with_logs with_audioCaptureResult with_sessionStorage
       with_search with_players with_live_tracks with_audio_contexts with_sdk_ready
       with_entropy_used with_clock_reads with_trace].

Ltac keeps_leaf tac :=
  let pf := fresh "pf" in
  let w := fresh "w" in
  intros pf w; unfold exec; cbn [snd modify toLocaleTimeString getRandomValues]; tac.

Ltac keeps_step refl trans tac :=
  lazymatch goal with
  | |- keeps _ (ret _) => apply (keeps_ret _ refl)
  | |- keeps _ (throw _) => apply (keeps_throw _ refl)
  | |- keeps _ (read _) => apply (keeps_read _ refl)
  | |- keeps _ (ask _) => apply (keeps_ask _ refl)
  | |- keeps _ (await _) => apply (keeps_await _ refl)
  | |- keeps _ (and_then _ _) => apply (keeps_and_then _ refl); intros ?
  | |- keeps _ (bind _ _) => apply (keeps_bind _ trans); [| intros ?]
  | |- keeps _ (try_catch _ _) => apply (keeps_try_catch _ trans); [| intros ?]
  | |- keeps _ (forEach _ _) => apply (keeps_forEach _ refl trans); intros ?
  | |- keeps _ (modify _) => keeps_leaf tac
  | |- keeps _ toLocaleTimeString => keeps_leaf tac
  | |- keeps _ (getRandomValues _) => keeps_leaf tac
  | |- keeps _ (if ?b then _ else _) => destruct b
  | |- keeps _ (match ?x with _ => _ end) => destruct x
  | |- keeps _ (let _ := _ in _) => cbv zeta
  end.

Ltac keeps_walk refl trans tac := repeat keeps_step refl trans tac.

Ltac open_component :=
  unfold perform, mount, onSpotifyWebPlaybackSDKReady, unmount, authenticate,
    handleAuthCallback, property, initializePlayer, dispatch, run_listener,
    player_state_changed_listener, togglePlayback, transferPlayback,
    testAudioCapture, testFullAudioMixing, generateCodeVerifier,
    generateCodeChallenge, clearLog, log, fetch, getDisplayMedia, getUserMedia,
    acquire, stop, new_AudioContext, createMediaStreamSource, AudioContext_close,
    new_Player, addListener, REDIRECT_URI, sessionStorage_getItem,
    sessionStorage_setItem, sessionStorage_removeItem, emit, setAuthStatus, setPlayer,
    setDeviceId, setAccessToken, setIsPaused, setCurrentTrack, setLogs,
    setAudioCaptureResult.

Lemma same_on_refl {T : Type} (proj : World -> T) (w : World) : same_on proj w w.
Proof. reflexivity. Qed.

Lemma same_on_trans {T : Type} (proj : World -> T) (w1 w2 w3 : World) :
  same_on proj w1 w2 -> same_on proj w2 w3 -> same_on proj w1 w3.
Proof. unfold same_on. congruence. Qed.

Lemma log_grows_refl (w : World) : log_grows w w.
Proof. unfold log_grows. reflexivity. Qed.

Lemma log_grows_trans (w1 w2 w3 : World) :
  log_grows w1 w2 -> log_grows w2 w3 -> log_grows w1 w3.
Proof. unfold log_grows. intros H1 H2. etransitivity; eassumption. Qed.

Lemma emits_only_refl (allowed : Event -> bool) (w : World) : emits_only allowed w w.
Proof. exists []. split; [symmetry; apply app_nil_r | reflexivity]. Qed.

Lemma emits_only_trans (allowed : Event -> bool) (w1 w2 w3 : World) :
  emits_only allowed w1 w2 -> emits_only allowed w2 w3 -> emits_only allowed w1 w3.
Proof.
  intros (a1 & E1 & H1) (a2 & E2 & H2). exists (a1 ++ a2)%list. split.
  - rewrite E2, E1, <- app_assoc. reflexivity.
  - rewrite forallb_app, H1, H2. reflexivity.
Qed.

Ltac same_leaf := unfold same_on; reflexivity.

Ltac log_leaf :=
  unfold log_grows; project;
  first [ reflexivity | apply prefix_app_r; reflexivity ].

Ltac emits_leaf :=
  unfold emits_only; project;
  first [ exists []; split; [symmetry; apply app_nil_r | reflexivity]
        | eexists [_]; split; reflexivity ].

Ltac keeps_same proj := keeps_walk (same_on_refl proj) (same_on_trans proj) same_leaf.
Ltac keeps_log := keeps_walk log_grows_refl log_grows_trans log_leaf.
Ltac keeps_emits allowed :=
  keeps_walk (emits_only_refl allowed) (emits_only_trans allowed) emits_leaf.

(** ** What each action may change *)

Lemma perform_log_grows (a : Action) :
  match a with
  | click_clear => True
  | _ => keeps log_grows (perform a)
  end.
Proof. destruct a; try exact I; open_component; keeps_log. Qed.

Lemma mount_log_grows (answer : Outcome Response) : keeps log_grows (mount answer).
Proof. open_component; keeps_log. Qed.

(** X1.  The log is append-only: Clear empties it, and every other click,
    SDK callback or device event, like the mount effect, leaves the
    entries already logged in place, in order, and only adds after
    them. *)
Theorem log_is_append_only (a : Action) (answer : Outcome Response)
    (pf : Platform) (w : World) :
  match a with
  | click_clear => logs (component (exec (perform a) pf w)) = []
  | _ => logs (component w) `prefix_of` logs (component (exec (perform a) pf w))
  end
  /\ logs (component w) `prefix_of` logs (component (exec (mount answer) pf w)).
Proof.
  split; [| exact (mount_log_grows answer pf w)].
  pose proof (perform_log_grows a) as H.
  destruct a; try exact (H pf w). reflexivity.
Qed.

Lemma perform_to_provider (a : Action) : keeps (emits_only to_provider) (perform a).
Proof. destruct a; open_component; keeps_emits to_provider. Qed.

Lemma mount_to_provider (answer : Outcome Response) :
  keeps (emits_only to_provider) (mount answer).
Proof. open_component; keeps_emits to_provider. Qed.

(** X2.  Whatever happens to a page, everything it sends out goes to the
    provider: each request is a POST to the token endpoint or a PUT to the
    player endpoint, each navigation goes to the authorization endpoint,
    and the only script added is the SDK. *)
Theorem page_talks_to_provider_only (pf : Platform) (storage : gmap string string)
    (query : string) (answer : Outcome Response) (actions : list Action) :
  forallb to_provider (trace (browser (run_page pf storage query answer actions))) = true.
Proof.
  unfold run_page.
  assert (Hstart : forallb to_provider
                     (trace (browser (exec (mount answer) pf (page_load storage query))))
                   = true).
  { destruct (mount_to_provider answer pf (page_load storage query)) as (added & -> & H).
    exact H. }
  revert Hstart. generalize (exec (mount answer) pf (page_load storage query)) as w.
  induction actions as [|a actions IH]; intros w Hw; [exact Hw |].
  cbn [fold_left]. apply IH.
  destruct (perform_to_provider a pf w) as (added & -> & H).
  rewrite forallb_app, Hw, H. reflexivity.
Qed.

(** X3.  No click, SDK callback or device event changes the access token:
    once the mount effect has run, the credential of the page is fixed. *)
Theorem credential_is_fixed_after_mount (a : Action) (pf : Platform) (w : World) :
  accessToken (component (exec (perform a) pf w)) = accessToken (component w).
Proof.
  revert pf w.
  change (keeps (same_on (fun w => accessToken (component w))) (perform a)).
  destruct a; open_component; keeps_same (fun w => accessToken (component w)).
Qed.

(** X4.  Session storage is written by Login only: Login stores the new
    verifier, and no other click, SDK callback or device event changes
    session storage. *)
Theorem only_login_writes_session_storage (a : Action) (pf : Platform) (w : World) :
  match a with
  | click_login =>
      sessionStorage (browser (exec (perform a) pf w))
      = <["code_verifier" := base64url (next_random pf w)]> (sessionStorage (browser w))
  | _ => sessionStorage (browser (exec (perform a) pf w)) = sessionStorage (browser w)
  end.
Proof.
  destruct a;
    [ exact (proj1 (proj2 (authenticate_spec pf w))) | .. ];
    revert pf w;
    lazymatch goal with
    | |- forall pf w, sessionStorage (browser (exec ?c pf w)) = _ =>
        change (keeps (same_on (fun w => sessionStorage (browser w))) c)
    end;
    open_component; keeps_same (fun w => sessionStorage (browser w)).
Qed.

(** X5.  The playback state of the page, [deviceId], [isPaused] and
    [currentTrack], changes on device events only: Play/Pause, Transfer,
    the probes, Login, Clear and the SDK callback leave it as it is.  A
    device event in turn never touches the player, the credential or the
    verdict. *)
Theorem playback_state_follows_device_events (a : Action) (pf : Platform) (w : World) :
  match a with
  | device_event _ _ _ =>
      player (component (exec (perform a) pf w)) = player (component w)
      /\ accessToken (component (exec (perform a) pf w)) = accessToken (component w)
      /\ audioCaptureResult (component (exec (perform a) pf w))
         = audioCaptureResult (component w)
  | _ => playback (exec (perform a) pf w) = playback w
  end.
Proof.
  destruct a;
    [ | | | | | | | pose proof (dispatch_core target e answer pf w) as E;
                    unfold core in E; injection E as E1 E2 E3 _ _;
                    repeat split; assumption ];
    revert pf w;
    lazymatch goal with
    | |- forall pf w, playback (exec ?c pf w) = _ => change (keeps (same_on playback) c)
    end;
    open_component; keeps_same playback.
Qed.

Lemma perform_not_fetch (a : Action) :
  match a with
  | click_transfer _ => True
  | _ => keeps (emits_only not_fetch) (perform a)
  end.
Proof. destruct a; try exact I; open_component; keeps_emits not_fetch. Qed.

Lemma not_fetch_network_calls (added : list Event) :
  forallb not_fetch added = true -> network_calls added = [].
Proof.
  induction added as [|e added IH]; [reflexivity |].
  cbn [forallb]. intros H. apply andb_prop in H as [He Hadded].
  destruct e; try discriminate He; cbn; apply IH, Hadded.
Qed.

Lemma emits_only_emitted (allowed : Event -> bool) (w w' : World) :
  emits_only allowed w w' -> forallb allowed (emitted w w') = true.
Proof.
  intros (added & E & H). unfold emitted. rewrite E, drop_app_length. exact H.
Qed.

(** X6.  After the mount effect only Transfer calls the network, and only
    when both a device id and an access token are known: then it sends
    exactly one request, the PUT that names the device and carries the
    token.  With no device id or no token Transfer sends nothing, and no
    other click, SDK callback or device event ever sends a request. *)
Theorem only_transfer_calls_the_network (a : Action) (pf : Platform) (w : World) :
  network_calls (emitted w (exec (perform a) pf w))
  = match a with
    | click_transfer _ =>
        if truthy (deviceId (component w)) && truthy (accessToken (component w))
        then [transfer_request (interpolate (deviceId (component w)))
                (interpolate (accessToken (component w)))]
        else []
    | _ => []
    end.
Proof.
  pose proof (perform_not_fetch a) as H.
  destruct a;
    try (apply not_fetch_network_calls, (emits_only_emitted not_fetch), H).
  clear H. world w. unfold emitted.
  destruct deviceId0 as [[|? ?]|], accessToken0 as [[|? ?]|];
    try (cbn -[drop]; rewrite drop_all; reflexivity).
  unfold perform, transferPlayback, exec, bind, read, try_catch, fetch. step.
  destruct answer as [response|?]; step;
    [destruct (ok response); step |]; new_events; reflexivity.
Qed.

(** ** The authorization callback, case by case *)

Ltac open_callback :=
  unfold mount, handleAuthCallback, exchange_inputs, stored_verifier, exec, result,
    emitted, reported, logged, bind, read, try_catch, sessionStorage_getItem, fetch,
    REDIRECT_URI, ask;
  cbn [browser search sessionStorage component].

Ltac since :=
  rewrite ?drop_all; repeat rewrite <- app_assoc; rewrite ?drop_app_length.

Ltac next_case :=
  match goal with
  | |- context [params_get ?k (URLSearchParams ?s)] =>
      destruct (params_get k (URLSearchParams s)) as [[|? ?]|] eqn:?
  | |- context [?m !! "code_verifier"] =>
      is_var m; destruct (m !! "code_verifier") as [[|? ?]|] eqn:?
  | |- context [ok ?r] => is_var r; destruct (ok r) eqn:?
  | |- context [json ?r] => is_var r; destruct (json r) as [[?|]|?] eqn:?
  | |- context [TokenJson.access_token ?d] =>
      is_var d; destruct (TokenJson.access_token d) as [| |[|? ?]] eqn:?
  end.

Ltac callback_cases answer :=
  destruct answer as [?|?]; repeat (step; next_case); step.

Ltac with_inputs search0 storage0 Hstored :=
  destruct (params_get "error" (URLSearchParams search0)) as [[|? ?]|];
  destruct (params_get "code" (URLSearchParams search0)) as [[|? ?]|];
  destruct (storage0 !! "code_verifier") as [[|? ?]|] eqn:Hstored;
  cbn [truthy];
  let H := fresh "Hinputs" in
  intros H; try discriminate H;
  apply (inj Some) in H; injection H as <- <-.

(** X7.  [handleAuthCallback] attempts the exchange exactly when the query
    string has a usable [code] and no usable [error] and session storage
    holds a usable verifier; it then sends one request, built from that
    code and that verifier, however the exchange ends.  In every other
    case it sends nothing. *)
Theorem exchange_is_attempted_once (pf : Platform) (w : World)
    (answer : Outcome Response) :
  network_calls (emitted w (exec (handleAuthCallback answer) pf w))
  = match exchange_inputs w with
    | Some (code, verifier) => [token_request code (origin pf ^^ pathname pf) verifier]
    | None => []
    end.
Proof.
  world w. open_callback. callback_cases answer; since; reflexivity.
Qed.

(** X8.  When [handleAuthCallback] returns a token, the token is not
    empty, it has become the credential of the component, the stored
    verifier is gone, the query string has been dropped from the
    location, the status says so, and the exchange had all its inputs. *)
Theorem returned_token_is_installed (pf : Platform) (w : World)
    (answer : Outcome Response) (token : string) :
  result (handleAuthCallback answer) pf w = Normal (Some token) ->
  let w' := exec (handleAuthCallback answer) pf w in
  token <> EmptyString
  /\ accessToken (component w') = Some token
  /\ stored_verifier w' = None
  /\ search (browser w') = EmptyString
  /\ authStatus (component w') = "✅ Authenticated with Spotify"
  /\ exists code verifier, exchange_inputs w = Some (code, verifier).
Proof.
  cbv zeta. world w. open_callback. callback_cases answer; intros H;
    try discriminate H.
  all: injection H as <-.
  all: repeat split; try discriminate; try reflexivity.
  all: first [apply lookup_delete_eq | eexists _, _; reflexivity].
Qed.

Lemma returned_token_is_installed_witness :
  let w := page_load {[ "code_verifier" := "v" ]} "?code=abc" in
  let answer := Returns (token_response "tok") in
  result (handleAuthCallback answer) sample_platform w = Normal (Some "tok")
  /\ stored_verifier (exec (handleAuthCallback answer) sample_platform w) = None
  /\ search (browser (exec (handleAuthCallback answer) sample_platform w)) = EmptyString.
Proof.
  assert (H : result (handleAuthCallback (Returns (token_response "tok"))) sample_platform
                (page_load {[ "code_verifier" := "v" ]} "?code=abc")
              = Normal (Some "tok")) by (vm_compute; reflexivity).
  split; [exact H |].
  destruct (returned_token_is_installed sample_platform
              (page_load {[ "code_verifier" := "v" ]} "?code=abc")
              (Returns (token_response "tok")) "tok" H) as (_ & _ & Hv & Hs & _).
  split; [exact Hv | exact Hs].
Defined.

(** X9.  On a load whose query string has neither a usable [code] nor a
    usable [error], the normal first load, [handleAuthCallback] returns
    no token and changes nothing: nothing is logged, stored or sent. *)
Theorem nothing_pending_changes_nothing (pf : Platform) (w : World)
    (answer : Outcome Response) :
  truthy (params_get "error" (URLSearchParams (search (browser w)))) = false ->
  truthy (params_get "code" (URLSearchParams (search (browser w)))) = false ->
  handleAuthCallback answer pf w = (Normal None, w).
Proof.
  intros Herror Hcode. unfold handleAuthCallback, bind, read. cbn beta iota.
  rewrite Herror, Hcode. reflexivity.
Qed.

Lemma nothing_pending_changes_nothing_witness :
  let w := page_load {[ "code_verifier" := "v" ]} "?utm_source=mail&code=" in
  truthy (params_get "error" (URLSearchParams (search (browser w)))) = false
  /\ truthy (params_get "code" (URLSearchParams (search (browser w)))) = false
  /\ handleAuthCallback (Returns (token_response "tok")) sample_platform w
     = (Normal None, w).
Proof.
  assert (Herror : truthy (params_get "error"
                     (URLSearchParams
                        (search (browser (page_load {[ "code_verifier" := "v" ]}
                                            "?utm_source=mail&code=")))))
                   = false) by (vm_compute; reflexivity).
  assert (Hcode : truthy (params_get "code"
                    (URLSearchParams
                       (search (browser (page_load {[ "code_verifier" := "v" ]}
                                           "?utm_source=mail&code=")))))
                  = false) by (vm_compute; reflexivity).
  split; [exact Herror | split; [exact Hcode |]].
  exact (nothing_pending_changes_nothing sample_platform
           (page_load {[ "code_verifier" := "v" ]} "?utm_source=mail&code=")
           (Returns (token_response "tok")) Herror Hcode).
Defined.

(** X10.  A successful response without a usable token.  When the body
    parses to anything but [null] and has no usable [access_token], the
    response is passed over in silence: the request has been sent, no
    token is returned, no error is logged, the status stays at
    "exchanging", and the verifier, the query string and the credential
    are left as they were.  When the body is the JSON text [null],
    reading [access_token] throws: the failure is caught and reported
    like every other failure of the exchange. *)
Theorem success_without_token (pf : Platform) (w : World)
    (response : Response) (code verifier : string) :
  exchange_inputs w = Some (code, verifier) ->
  ok response = true ->
  let w' := exec (handleAuthCallback (Returns response)) pf w in
  (forall data : TokenJson.t,
      json response = Returns (Some data) ->
      TokenJson.truthy (TokenJson.access_token data) = false ->
      result (handleAuthCallback (Returns response)) pf w = Normal None
      /\ network_calls (emitted w w')
         = [token_request code (origin pf ^^ pathname pf) verifier]
      /\ reported w w'
         = Some ("Authorization code received, exchanging for token with PKCE...",
                 Severity.info)
      /\ authStatus (component w') = "🔄 Exchanging code for token..."
      /\ sessionStorage (browser w') = sessionStorage (browser w)
      /\ search (browser w') = search (browser w)
      /\ accessToken (component w') = accessToken (component w))
  /\ (json response = Returns None ->
      result (handleAuthCallback (Returns response)) pf w = Normal None
      /\ network_calls (emitted w w')
         = [token_request code (origin pf ^^ pathname pf) verifier]
      /\ exists text : string, exchange_failed text w w').
Proof.
  cbv zeta. intros Hinputs Hok. revert Hinputs.
  world w. unfold exchange_failed. open_callback.
  with_inputs search0 storage0 Hstored;
    (split;
     [ intros data Hjson Htoken; step; rewrite Hstored; step; rewrite Hok, Hjson; step;
       rewrite Htoken; step; since; repeat split
     | intros Hjson; step; rewrite Hstored; step; rewrite Hok, Hjson; step;
       since; (split; [reflexivity | split; [reflexivity |]]);
       eexists; repeat split; reflexivity ]).
Qed.

Lemma success_without_token_witness :
  let w := page_load {[ "code_verifier" := "v" ]} "?code=abc" in
  let empty := {| TokenJson.access_token := TokenJson.undefined;
                  TokenJson.error := TokenJson.undefined;
                  TokenJson.error_description := TokenJson.undefined |} in
  let response := {| status := 200; json := Returns (Some empty) |} in
  let nothing := {| status := 200; json := Returns None |} in
  exchange_inputs w = Some ("abc", "v")
  /\ ok response = true
  /\ result (handleAuthCallback (Returns response)) sample_platform w = Normal None
  /\ authStatus (component (exec (handleAuthCallback (Returns response))
                              sample_platform w))
     = "🔄 Exchanging code for token..."
  /\ authStatus (component (exec (handleAuthCallback (Returns nothing))
                              sample_platform w))
     = "❌ Token exchange failed".
Proof.
  cbv zeta.
  assert (Hinputs : exchange_inputs (page_load {[ "code_verifier" := "v" ]} "?code=abc")
                    = Some ("abc", "v")) by (vm_compute; reflexivity).
  split; [exact Hinputs | split; [reflexivity |]].
  destruct (proj1 (success_without_token sample_platform
                     (page_load {[ "code_verifier" := "v" ]} "?code=abc")
                     {| status := 200;
                        json := Returns (Some
                          {| TokenJson.access_token := TokenJson.undefined;
                             TokenJson.error := TokenJson.undefined;
                             TokenJson.error_description := TokenJson.undefined |}) |}
                     "abc" "v" Hinputs eq_refl)
              _ eq_refl eq_refl)
    as (Hr & _ & _ & Hstatus & _).
  destruct (proj2 (success_without_token sample_platform
                     (page_load {[ "code_verifier" := "v" ]} "?code=abc")
                     {| status := 200; json := Returns None |}
                     "abc" "v" Hinputs eq_refl)
              eq_refl)
    as (_ & _ & text & _ & Hfailed & _).
  split; [exact Hr | split; [exact Hstatus | exact Hfailed]].
Defined.

(** X11.  Once the exchange has its inputs, each way it can fail ends the
    same way: no token is returned, the failure is logged as an error,
    the status says the exchange failed, and the credential, the stored
    verifier and the query string stay as they were.  A rejected [fetch]
    is reported by its message; a response that is not a success by its
    status and its [error_description], or its [error] when there is no
    description; a body that cannot be read as JSON by the message of
    that failure, whatever the status was; a failure whose body is the
    JSON text [null] by the error of reading a property of it. *)
Theorem exchange_failures_are_reported (pf : Platform) (w : World)
    (code verifier : string) :
  exchange_inputs w = Some (code, verifier) ->
  (forall e : Error,
      result (handleAuthCallback (Throws e)) pf w = Normal None
      /\ exchange_failed (error_message e) w (exec (handleAuthCallback (Throws e)) pf w))
  /\ (forall (response : Response) (data : TokenJson.t),
        ok response = false ->
        json response = Returns (Some data) ->
        result (handleAuthCallback (Returns response)) pf w = Normal None
        /\ exchange_failed
             ("Token exchange failed: " ^^ string_of_nat (status response) ^^ " - "
              ^^ TokenJson.interpolate (TokenJson.or (TokenJson.error_description data)
                                                     (TokenJson.error data)))
             w (exec (handleAuthCallback (Returns response)) pf w))
  /\ (forall (response : Response) (e : Error),
        json response = Throws e ->
        result (handleAuthCallback (Returns response)) pf w = Normal None
        /\ exchange_failed (error_message e) w
             (exec (handleAuthCallback (Returns response)) pf w))
  /\ (forall response : Response,
        ok response = false ->
        json response = Returns None ->
        result (handleAuthCallback (Returns response)) pf w = Normal None
        /\ exists text : string,
             exchange_failed text w (exec (handleAuthCallback (Returns response)) pf w)).
Proof.
  world w. unfold exchange_failed. open_callback.
  with_inputs search0 storage0 Hstored;
    (split;
     [ intros failure; step; rewrite Hstored; step; since; repeat split
     | split;
       [ intros response data Hok Hjson; step; rewrite Hstored; step;
         rewrite Hok, Hjson; step; since; repeat split
       | split;
         [ intros response failure Hjson; step; rewrite Hstored; step;
           destruct (ok response); step; rewrite Hjson; step; since; repeat split
         | intros response Hok Hjson; step; rewrite Hstored; step;
           rewrite Hok, Hjson; step; since; (split; [reflexivity |]);
           eexists; repeat split; reflexivity ] ] ]).
Qed.

Lemma exchange_failures_are_reported_witness :
  let w := page_load {[ "code_verifier" := "v" ]} "?code=abc" in
  let response := error_response 400 "invalid_grant" "Invalid authorization code" in
  exchange_inputs w = Some ("abc", "v")
  /\ exchange_failed "Token exchange failed: 400 - Invalid authorization code" w
       (exec (handleAuthCallback (Returns response)) sample_platform w).
Proof.
  cbv zeta.
  assert (Hinputs : exchange_inputs (page_load {[ "code_verifier" := "v" ]} "?code=abc")
                    = Some ("abc", "v")) by (vm_compute; reflexivity).
  split; [exact Hinputs |].
  destruct (exchange_failures_are_reported sample_platform
              (page_load {[ "code_verifier" := "v" ]} "?code=abc") "abc" "v" Hinputs)
    as (_ & Hrefused & _).
  exact (proj2 (Hrefused (error_response 400 "invalid_grant" "Invalid authorization code")
                  _ eq_refl eq_refl)).
Defined.

Lemma mount_cases (pf : Platform) (w : World)
    (answer : Outcome Response) :
  let w' := exec (mount answer) pf w in
  (exists token : string,
      token <> EmptyString
      /\ accessToken (component w') = Some token
      /\ sdk_ready (browser w') = Some (Some token)
      /\ authStatus (component w') = "✅ Authenticated with Spotify"
      /\ last (emitted w w') = Some (AppendScript "https://sdk.scdn.co/spotify-player.js"))
  \/ (accessToken (component w') = accessToken (component w)
      /\ sdk_ready (browser w') = sdk_ready (browser w)
      /\ authStatus (component w') = "🔐 Please authenticate with Spotify"
      /\ reported w w'
         = Some ("No token found - please authenticate first", Severity.info)).
Proof.
  cbv zeta. world w. open_callback. callback_cases answer; since;
    first [ right; repeat split; reflexivity
          | left; eexists; (split; [| repeat split; reflexivity]); discriminate ].
Qed.

(** X12.  The mount effect ends in one of two ways.  Either the callback
    returned a token: the token is the credential, the SDK script has
    been added and the closure that waits for the SDK holds the token.
    Or it did not: nothing new waits for the SDK, the credential is as
    it was, and the status asks the user to authenticate, so that a
    failure status set by the callback has been overwritten. *)
Theorem mount_ends_authenticated_or_prompting (pf : Platform) (w : World)
    (answer : Outcome Response) :
  let w' := exec (mount answer) pf w in
  (exists token : string,
      token <> EmptyString
      /\ accessToken (component w') = Some token
      /\ sdk_ready (browser w') = Some (Some token)
      /\ authStatus (component w') = "✅ Authenticated with Spotify"
      /\ last (emitted w w') = Some (AppendScript "https://sdk.scdn.co/spotify-player.js"))
  \/ (accessToken (component w') = accessToken (component w)
      /\ sdk_ready (browser w') = sdk_ready (browser w)
      /\ authStatus (component w') = "🔐 Please authenticate with Spotify"
      /\ reported w w'
         = Some ("No token found - please authenticate first", Severity.info)).
Proof. exact (mount_cases pf w answer). Qed.

(** ** From the login to a ready device *)

Lemma exchange_inputs_inv (w : World) (code verifier : string) :
  exchange_inputs w = Some (code, verifier) ->
  truthy (params_get "error" (URLSearchParams (search (browser w)))) = false
  /\ params_get "code" (URLSearchParams (search (browser w))) = Some code
  /\ truthy (Some code) = true
  /\ sessionStorage (browser w) !! "code_verifier" = Some verifier
  /\ truthy (Some verifier) = true.
Proof.
  unfold exchange_inputs, stored_verifier.
  destruct (truthy (params_get "error" (URLSearchParams (search (browser w)))));
    [discriminate |].
  destruct (params_get "code" (URLSearchParams (search (browser w)))) as [[|? ?]|];
    try discriminate.
  destruct (sessionStorage (browser w) !! "code_verifier") as [[|? ?]|];
    try discriminate.
  intros H. apply (inj Some) in H. injection H as <- <-. repeat split.
Qed.

(** The mount effect when the exchange is granted a token. *)
Lemma mount_granted (pf : Platform) (w : World) (response : Response)
    (code verifier token : string) :
  exchange_inputs w = Some (code, verifier) ->
  grants token response ->
  let w' := exec (mount (Returns response)) pf w in
  accessToken (component w') = Some token
  /\ sdk_ready (browser w') = Some (Some token)
  /\ players (browser w') = players (browser w)
  /\ stored_verifier w' = None
  /\ network_calls (emitted w w')
     = [token_request code (origin pf ^^ pathname pf) verifier].
Proof.
  cbv zeta. intros Hinputs (Hok & (data & Hjson & Htoken) & Hne).
  apply exchange_inputs_inv in Hinputs as (Herror & Hcode & Hc & Hstored & Hv).
  destruct token as [|t0 token]; [congruence | clear Hne].
  world w. open_callback. cbn [browser search sessionStorage] in *.
  step. rewrite Herror, Hcode, Hc. step. rewrite Hstored, Hv. step.
  rewrite Hok, Hjson. step. rewrite Htoken. step.
  since. repeat split. apply lookup_delete_eq.
Qed.

(** The SDK calling back when a token waits for it. *)
Lemma sdk_loaded_makes_player (pf : Platform) (w : World) (token : string)
    (connected : Outcome bool) :
  sdk_ready (browser w) = Some (Some token) ->
  token <> EmptyString ->
  let w' := exec (onSpotifyWebPlaybackSDKReady connected) pf w in
  player (component w') = Some (List.length (players (browser w)))
  /\ players (browser w')
     = (players (browser w)
        ++ [ {| player_name := "Beats & Repeats Test Player";
                getOAuthToken := token;
                volume := 1 # 2;
                listeners := installed_listeners |} ])%list.
Proof.
  cbv zeta. intros Hready Hne.
  unfold onSpotifyWebPlaybackSDKReady, exec, bind, read. cbn beta iota. rewrite Hready.
  set (w0 := snd (log "🎵 Spotify Web Playback SDK loaded (official pattern)"
                    Severity.info pf w)).
  change (log "🎵 Spotify Web Playback SDK loaded (official pattern)" Severity.info pf w)
    with (Normal tt, w0).
  cbn beta iota.
  destruct (initializePlayer_spec pf w0 token connected Hne) as (Hp & Hps & _).
  split; [exact Hp | exact Hps].
Qed.

(** The [ready] event on a player with the listeners of
    [initializePlayer]. *)
Lemma dispatch_ready (pf : Platform) (w : World) (target : nat) (device : Player)
    (device_id : string) (answer : Outcome (option WebPlaybackState)) :
  players (browser w) !! target = Some device ->
  listeners device = installed_listeners ->
  let w' := exec (dispatch target (ready device_id) answer) pf w in
  deviceId (component w') = Some device_id
  /\ authStatus (component w') = "✅ Player ready - Transfer playback from Spotify app".
Proof.
  cbv zeta. intros Hdevice Hlisteners.
  unfold dispatch, exec, bind, read. cbn beta iota. rewrite Hdevice, Hlisteners.
  world w. split; reflexivity.
Qed.

Lemma perform_same_accessToken (a : Action) :
  keeps (same_on (fun w => accessToken (component w))) (perform a).
Proof. destruct a; open_component; keeps_same (fun w => accessToken (component w)). Qed.

Lemma perform_same_storage (a : Action) :
  match a with
  | click_login => True
  | _ => keeps (same_on (fun w => sessionStorage (browser w))) (perform a)
  end.
Proof.
  destruct a; try exact I; open_component;
    keeps_same (fun w => sessionStorage (browser w)).
Qed.

Lemma network_calls_app (l k : list Event) :
  network_calls (l ++ k) = (network_calls l ++ network_calls k)%list.
Proof. unfold network_calls. apply flat_map_app. Qed.

(** X13.  The whole path composes.  A page loaded with a usable code and
    its verifier, whose exchange is granted a token, then told that the
    SDK has loaded, then sent the [ready] event of the device: the token
    is the credential and the token the device is handed, the player of
    the component is the one just made, the device id is the one of the
    event, the status says the player is ready, the verifier is gone, and
    the only request sent is the one exchange. *)
Theorem login_to_ready_device (pf : Platform) (storage : gmap string string)
    (query : string) (response : Response) (code verifier token device_id : string)
    (connected : Outcome bool) (answer : Outcome (option WebPlaybackState)) :
  exchange_inputs (page_load storage query) = Some (code, verifier) ->
  grants token response ->
  let page := run_page pf storage query (Returns response)
                [sdk_loaded connected; device_event 0 (ready device_id) answer] in
  accessToken (component page) = Some token
  /\ player (component page) = Some 0%nat
  /\ supplied_token page = Some token
  /\ deviceId (component page) = Some device_id
  /\ authStatus (component page) = "✅ Player ready - Transfer playback from Spotify app"
  /\ stored_verifier page = None
  /\ network_calls (trace (browser page))
     = [token_request code (origin pf ^^ pathname pf) verifier].
Proof.
  cbv zeta. intros Hinputs Hgrants.
  assert (Hne : token <> EmptyString) by apply Hgrants.
  destruct (mount_granted pf (page_load storage query) response code verifier token
              Hinputs Hgrants) as (Ha1 & Hsdk1 & Hps1 & Hv1 & Hn1).
  unfold run_page. cbn [fold_left].
  set (w1 := exec (mount (Returns response)) pf (page_load storage query)) in *.
  destruct (sdk_loaded_makes_player pf w1 token connected Hsdk1 Hne) as (Hp2 & Hps2).
  pose proof (perform_same_accessToken (sdk_loaded connected) pf w1) as Ha2.
  pose proof (perform_same_storage (sdk_loaded connected) pf w1) as Hs2.
  pose proof (perform_not_fetch (sdk_loaded connected) pf w1) as (added2 & Ht2 & Hf2).
  change (perform (sdk_loaded connected)) with (onSpotifyWebPlaybackSDKReady connected) in *.
  set (w2 := exec (onSpotifyWebPlaybackSDKReady connected) pf w1) in *.
  rewrite Hps1 in Hp2, Hps2. cbn [page_load fresh_browser browser players app List.length]
    in Hp2, Hps2.
  destruct (dispatch_ready pf w2 0
              {| player_name := "Beats & Repeats Test Player";
                 getOAuthToken := token;
                 volume := 1 # 2;
                 listeners := installed_listeners |}
              device_id answer) as (Hd3 & Hst3);
    [rewrite Hps2; reflexivity | reflexivity |].
  pose proof (dispatch_core 0 (ready device_id) answer pf w2) as Hcore.
  unfold core in Hcore. injection Hcore as Ea3 _ Ep3 Eps3 _.
  pose proof (perform_same_storage (device_event 0 (ready device_id) answer) pf w2) as Hs3.
  pose proof (perform_not_fetch (device_event 0 (ready device_id) answer) pf w2)
    as (added3 & Ht3 & Hf3).
  change (perform (device_event 0 (ready device_id) answer))
    with (dispatch 0 (ready device_id) answer) in *.
  set (w3 := exec (dispatch 0 (ready device_id) answer) pf w2) in *.
  unfold same_on in *.
  split; [rewrite Ea3, Ha2; exact Ha1 |].
  split; [rewrite Ep3; exact Hp2 |].
  split; [unfold supplied_token; rewrite Ep3, Eps3, Hp2, Hps2; reflexivity |].
  split; [exact Hd3 |].
  split; [exact Hst3 |].
  split; [unfold stored_verifier in *; rewrite Hs3, Hs2; exact Hv1 |].
  rewrite Ht3, Ht2, !network_calls_app, (not_fetch_network_calls _ Hf2),
    (not_fetch_network_calls _ Hf3), !app_nil_r.
  unfold emitted in Hn1. cbn [page_load fresh_browser browser trace List.length drop]
    in Hn1. exact Hn1.
Qed.

Lemma login_to_ready_device_witness :
  let page := run_page sample_platform {[ "code_verifier" := "v" ]} "?code=abc123"
                (Returns (token_response "tok"))
                [sdk_loaded (Returns true); device_event 0 (ready "dev1") (Returns None)] in
  exchange_inputs (page_load {[ "code_verifier" := "v" ]} "?code=abc123")
  = Some ("abc123", "v")
  /\ grants "tok" (token_response "tok")
  /\ deviceId (component page) = Some "dev1"
  /\ supplied_token page = Some "tok".
Proof.
  cbv zeta.
  assert (Hinputs : exchange_inputs (page_load {[ "code_verifier" := "v" ]} "?code=abc123")
                    = Some ("abc123", "v")) by (vm_compute; reflexivity).
  assert (Hgrants : grants "tok" (token_response "tok")).
  { split; [reflexivity | split; [| discriminate]].
    eexists. split; reflexivity. }
  split; [exact Hinputs | split; [exact Hgrants |]].
  destruct (login_to_ready_device sample_platform {[ "code_verifier" := "v" ]}
              "?code=abc123" (token_response "tok") "abc123" "v" "tok" "dev1"
              (Returns true) (Returns None) Hinputs Hgrants)
    as (_ & _ & Hs & Hd & _).
  split; [exact Hd | exact Hs].
Defined.

(** ** Device events *)

(** X14.  The [authentication_error], [account_error] and [not_ready]
    events are advisory: whatever listeners the device has, they change
    no hook of the component but the log.  After [not_ready] the page
    still holds the device id and still says that the player is ready. *)
Theorem advisory_events_only_log (target : nat) (e : DeviceEvent)
    (answer : Outcome (option WebPlaybackState)) (pf : Platform) (w : World) :
  advisory e = true ->
  hooks (exec (dispatch target e answer) pf w) = hooks w.
Proof.
  intros He. revert pf w.
  change (keeps (same_on hooks) (dispatch target e answer)).
  destruct e; try discriminate He; open_component; keeps_same hooks.
Qed.

Lemma advisory_events_only_log_witness :
  let w := run_page sample_platform {[ "code_verifier" := "v" ]} "?code=abc123"
             (Returns (token_response "tok"))
             [sdk_loaded (Returns true); device_event 0 (ready "dev1") (Returns None)] in
  let w' := exec (dispatch 0 (not_ready "dev1") (Returns None)) sample_platform w in
  advisory (not_ready "dev1") = true
  /\ deviceId (component w') = Some "dev1"
  /\ authStatus (component w') = "✅ Player ready - Transfer playback from Spotify app"
  /\ hooks w' = hooks w.
Proof.
  cbv zeta. split; [reflexivity |].
  split; [vm_compute; reflexivity |].
  split; [vm_compute; reflexivity |].
  apply (advisory_events_only_log 0 (not_ready "dev1") (Returns None)). reflexivity.
Defined.

(** X15.  A state event whose current track lists no artist stops the
    listener half way: reading the name of the first artist throws, after
    [isPaused] has been set and before the track is set, before anything
    is logged and before the device is asked for its current state. *)
Theorem state_event_without_artists (pf : Platform) (w : World) (spotifyPlayer : nat)
    (p : bool) (title : string) (answer : Outcome (option WebPlaybackState)) :
  let state := {| paused := p;
                  track_window :=
                    {| current_track :=
                         Some {| track_name := title; artists := [] |} |} |} in
  let event := player_state_changed_listener spotifyPlayer (Some state) answer in
  (exists e, result event pf w = Thrown e)
  /\ exec event pf w = on_component (with_isPaused p) w.
Proof.
  cbv zeta. world w. split; [eexists |]; reflexivity.
Qed.

(** ** The page over its life *)

Lemma perform_never_disconnects (a : Action) :
  keeps (emits_only never_disconnects) (perform a).
Proof. destruct a; open_component; keeps_emits never_disconnects. Qed.

Lemma mount_never_disconnects (answer : Outcome Response) :
  keeps (emits_only never_disconnects) (mount answer).
Proof. open_component; keeps_emits never_disconnects. Qed.

Lemma never_disconnects_existsb (l : list Event) :
  forallb never_disconnects l = true -> existsb is_disconnect l = false.
Proof.
  induction l as [|e l IH]; [reflexivity |].
  cbn [forallb existsb]. unfold never_disconnects at 1. intros H.
  apply andb_prop in H as [He Hl]. rewrite (IH Hl).
  destruct (is_disconnect e); [discriminate He | reflexivity].
Qed.

(** X16.  The page never disconnects its player.  The clean-up of the
    mount effect reads [player] as the first render had it, so whatever
    has happened to the page, unmounting it changes nothing, and no
    [disconnect] is ever called, also when a player has been connected. *)
Theorem page_never_disconnects (pf : Platform) (storage : gmap string string)
    (query : string) (answer : Outcome Response) (actions : list Action) :
  let page := run_page pf storage query answer actions in
  exec unmount pf page = page
  /\ existsb is_disconnect (trace (browser (exec unmount pf page))) = false.
Proof.
  cbv zeta. split; [reflexivity |].
  change (exec unmount pf (run_page pf storage query answer actions))
    with (run_page pf storage query answer actions).
  apply never_disconnects_existsb. unfold run_page.
  assert (Hstart : forallb never_disconnects
                     (trace (browser (exec (mount answer) pf (page_load storage query))))
                   = true).
  { destruct (mount_never_disconnects answer pf (page_load storage query))
      as (added & -> & H).
    exact H. }
  revert Hstart. generalize (exec (mount answer) pf (page_load storage query)) as w.
  induction actions as [|a actions IH]; intros w Hw; [exact Hw |].
  cbn [fold_left]. apply IH.
  destruct (perform_never_disconnects a pf w) as (added & -> & H).
  rewrite forallb_app, Hw, H. reflexivity.
Qed.

(** ** A page without a credential *)

Lemma mount_same_player (answer : Outcome Response) :
  keeps (same_on (fun w => (player (component w), players (browser w),
                            deviceId (component w)))) (mount answer).
Proof.
  open_component;
    keeps_same (fun w => (player (component w), players (browser w),
                          deviceId (component w))).
Qed.

Lemma mount_unauthenticated (pf : Platform) (storage : gmap string string)
    (query : string) (answer : Outcome Response) :
  let w := exec (mount answer) pf (page_load storage query) in
  accessToken (component w) = None ->
  unauthenticated w /\ deviceId (component w) = None.
Proof.
  cbv zeta. intros Hnone.
  pose proof (mount_same_player answer pf (page_load storage query)) as Hsame.
  unfold same_on in Hsame. injection Hsame as Hplayer Hplayers Hdevice.
  destruct (mount_cases pf (page_load storage query) answer)
    as [(token & _ & Htoken & _) | (_ & Hsdk & _)];
    [rewrite Htoken in Hnone; discriminate Hnone |].
  repeat split; assumption.
Qed.

Lemma perform_same_hooks (a : Action) :
  match a with
  | click_login | click_clear => keeps (same_on hooks) (perform a)
  | _ => True
  end.
Proof. destruct a; try exact I; open_component; keeps_same hooks. Qed.

Lemma perform_same_devices (a : Action) :
  match a with
  | click_login | click_clear =>
      keeps (same_on (fun w => (sdk_ready (browser w), players (browser w)))) (perform a)
  | _ => True
  end.
Proof.
  destruct a; try exact I; open_component;
    keeps_same (fun w => (sdk_ready (browser w), players (browser w))).
Qed.

(** On a page without a credential and without a device, Login and Clear
    are the only actions that do anything. *)
Lemma unauthenticated_step (a : Action) (pf : Platform) (w : World) :
  unauthenticated w -> deviceId (component w) = None ->
  match a with
  | click_login | click_clear =>
      hooks (exec (perform a) pf w) = hooks w
      /\ sdk_ready (browser (exec (perform a) pf w)) = sdk_ready (browser w)
      /\ players (browser (exec (perform a) pf w)) = players (browser w)
  | _ => exec (perform a) pf w = w
  end.
Proof.
  intros (Htoken & Hsdk & Hplayer & Hplayers) Hdevice.
  pose proof (perform_same_hooks a) as Hh.
  pose proof (perform_same_devices a) as Hd.
  destruct a; cbv beta iota in Hh, Hd;
    try (specialize (Hh pf w); specialize (Hd pf w); unfold same_on in Hh, Hd;
         split; [exact Hh | split; [exact (f_equal fst Hd) | exact (f_equal snd Hd)]]);
    world w; cbn [component browser accessToken sdk_ready player players deviceId] in *;
    subst; reflexivity.
Qed.

(** X17.  A page whose mount effect ends without a credential stays
    inert: whatever is clicked and whatever the SDK or a device sends,
    it has no credential, no player and no device, no hook but the log
    changes, and it sends no request.  Only a new load can change that. *)
Theorem unauthenticated_page_stays_inert (pf : Platform) (storage : gmap string string)
    (query : string) (answer : Outcome Response) (actions : list Action) :
  let loaded := run_page pf storage query answer [] in
  let page := run_page pf storage query answer actions in
  accessToken (component loaded) = None ->
  unauthenticated page
  /\ hooks page = hooks loaded
  /\ network_calls (trace (browser page)) = network_calls (trace (browser loaded)).
Proof.
  cbv zeta. unfold run_page. cbn [fold_left]. intros Hnone.
  destruct (mount_unauthenticated pf storage query answer Hnone) as (Hu & Hdevice).
  revert Hu Hdevice. clear Hnone.
  generalize (exec (mount answer) pf (page_load storage query)) as w.
  induction actions as [|a actions IH]; intros w Hu Hdevice;
    [repeat split; apply Hu |].
  cbn [fold_left].
  pose proof (unauthenticated_step a pf w Hu Hdevice) as Hstep.
  pose proof (perform_not_fetch a) as Hfetch.
  assert (Hnext : hooks (exec (perform a) pf w) = hooks w
                  /\ sdk_ready (browser (exec (perform a) pf w)) = sdk_ready (browser w)
                  /\ players (browser (exec (perform a) pf w)) = players (browser w)
                  /\ network_calls (trace (browser (exec (perform a) pf w)))
                     = network_calls (trace (browser w))).
  { destruct a; try (rewrite Hstep; repeat split; reflexivity);
      destruct Hstep as (Hh & Hs & Hp); destruct (Hfetch pf w) as (added & Ht & Hf);
      rewrite Ht, network_calls_app, (not_fetch_network_calls _ Hf), app_nil_r;
      repeat split; assumption. }
  clear Hstep Hfetch. destruct Hnext as (Hh & Hs & Hp & Hn).
  destruct Hu as (Htoken & Hsdk & Hplayer & Hplayers).
  pose proof Hh as Hh'. unfold hooks in Hh'.
  injection Hh' as _ Eplayer Edevice Etoken _ _ _.
  destruct (IH (exec (perform a) pf w)) as (Hu' & Hh2 & Hn2).
  - repeat split; congruence.
  - congruence.
  - split; [exact Hu' |]. split; congruence.
Qed.

Lemma unauthenticated_page_stays_inert_witness :
  let actions := [click_play_pause (Returns tt);
                  click_transfer (Returns (token_response "tok"));
                  sdk_loaded (Returns true);
                  device_event 0 (ready "dev1") (Returns None);
                  click_login] in
  let loaded := run_page sample_platform ∅ "?error=access_denied" (Throws denied) [] in
  let page := run_page sample_platform ∅ "?error=access_denied" (Throws denied) actions in
  accessToken (component loaded) = None
  /\ unauthenticated page
  /\ network_calls (trace (browser page)) = [].
Proof.
  cbv zeta.
  assert (Hnone : accessToken (component (run_page sample_platform ∅
                     "?error=access_denied" (Throws denied) [])) = None)
    by (vm_compute; reflexivity).
  split; [exact Hnone |].
  destruct (unauthenticated_page_stays_inert sample_platform ∅ "?error=access_denied"
              (Throws denied)
              [click_play_pause (Returns tt);
               click_transfer (Returns (token_response "tok"));
               sdk_loaded (Returns true);
               device_event 0 (ready "dev1") (Returns None);
               click_login] Hnone) as (Hu & _ & Hn).
  split; [exact Hu |]. rewrite Hn. vm_compute. reflexivity.
Defined.

(** ** Playback controls *)

(** X18.  [togglePlayback] never throws.  Without a player it does
    nothing at all.  With a player it calls [togglePlay] on it once and
    logs the outcome: that playback was toggled, or the message of the
    rejection as an error.  No hook but the log changes. *)
Theorem togglePlayback_reports (pf : Platform) (w : World) (answer : Outcome unit) :
  let w' := exec (togglePlayback answer) pf w in
  result (togglePlayback answer) pf w = Normal tt
  /\ match player (component w) with
     | None => w' = w
     | Some p =>
         emitted w w'
         = [PlayerTogglePlay p;
            Console (match answer with
                     | Returns _ => "[INFO] Toggled playback"
                     | Throws e => "[ERROR] Playback error: " ^^ error_message e
                     end)]
         /\ hooks w' = hooks w
     end.
Proof.
  cbv zeta. world w. unfold emitted, hooks.
  destruct player0 as [p|]; [| split; reflexivity].
  unfold togglePlayback, exec, result, bind, read, try_catch.
  destruct answer as [[]|e]; step; since; repeat split; reflexivity.
Qed.

(** X19.  [transferPlayback] never throws and changes no hook but the
    log.  It reports nothing when the device id or the token is missing;
    otherwise it reports success on a 2xx status, the status on any other
    status, and the message when the request itself fails. *)
Theorem transferPlayback_reports (pf : Platform) (w : World)
    (answer : Outcome Response) :
  let w' := exec (transferPlayback answer) pf w in
  result (transferPlayback answer) pf w = Normal tt
  /\ hooks w' = hooks w
  /\ reported w w'
     = if truthy (deviceId (component w)) && truthy (accessToken (component w))
       then Some (match answer with
                  | Returns response =>
                      if ok response then ("✅ Playback transferred", Severity.success)
                      else ("Transfer failed: " ^^ string_of_nat (status response),
                            Severity.error)
                  | Throws e => ("Transfer error: " ^^ error_message e, Severity.error)
                  end)
       else None.
Proof.
  cbv zeta. world w. unfold reported, logged, hooks.
  destruct deviceId0 as [[|? ?]|], accessToken0 as [[|? ?]|];
    try (cbn -[drop last]; rewrite drop_all; repeat split; reflexivity).
  unfold transferPlayback, exec, result, bind, read, try_catch, fetch. step.
  destruct answer as [response|?]; step;
    [destruct (ok response); step |];
    rewrite drop_app_length; repeat split; reflexivity.
Qed.

(** ** The audio probes *)

(** X20.  When [getDisplayMedia] hands [testAudioCapture] a stream, the
    verdict has no error and [displayMedia] tells whether the stream has
    an audio track.  Only then are the tracks of the stream stopped: a
    stream without an audio track is left live, and the probe reports
    that capture is not possible. *)
Theorem capture_probe_on_a_stream (pf : Platform) (w : World) (stream : MediaStream)
    (recorder : option (Outcome bool)) :
  let probe := testAudioCapture (Returns stream) recorder in
  let w' := exec probe pf w in
  let heard := (0 <? List.length (getAudioTracks stream))%nat in
  audioCaptureResult (component w')
  = Some {| displayMedia := heard;
            webAudio := true;
            mediaRecorder := recorder_supported recorder;
            capture_error := None |}
  /\ live_tracks (browser w')
     = (if heard then (live_tracks (browser w) ∪ tracks_of stream) ∖ tracks_of stream
        else live_tracks (browser w) ∪ tracks_of stream)
  /\ reported w w'
     = Some (if heard
             then ("🟢 VERDICT: Audio capture POSSIBLE - Spotify integration viable!",
                   Severity.success)
             else ("🔴 VERDICT: Audio capture NOT possible - Recommend built-in player",
                   Severity.error)).
Proof.
  cbv zeta. world w.
  unfold testAudioCapture, exec, reported, logged, tracks_of, bind, try_catch. step.
  destruct (0 <? List.length (getAudioTracks stream))%nat eqn:Haudio; step.
  - rewrite forEach_stop. unfold released. step.
    destruct recorder as [[[]|]|]; step; since; repeat split; reflexivity.
  - destruct recorder as [[[]|]|]; step; since; repeat split; reflexivity.
Qed.

Ltac mixing_cases a b c d e :=
  destruct a as [?m|?]; step; [| since; repeat split; reflexivity];
  destruct b as [?s|?]; step; [| since; repeat split; reflexivity];
  destruct c as [[]|?]; step; [| since; repeat split; reflexivity];
  destruct d as [[]|?]; step; [| since; repeat split; reflexivity];
  destruct e as [[]|?]; step; [| since; repeat split; reflexivity];
  rewrite forEach_stop; unfold released; step;
  rewrite forEach_stop; unfold released; step;
  since; repeat split; reflexivity.

Lemma mixing_returns (pf : Platform) (w : World)
    (mic system : Outcome MediaStream) (audioContext micSource systemSource : Outcome unit) :
  result (testFullAudioMixing mic system audioContext micSource systemSource) pf w
  = Normal tt.
Proof.
  world w. unfold testFullAudioMixing, result, bind, try_catch.
  mixing_cases mic system audioContext micSource systemSource.
Qed.

Lemma mixing_same_hooks (mic system : Outcome MediaStream)
    (audioContext micSource systemSource : Outcome unit) :
  keeps (same_on hooks) (testFullAudioMixing mic system audioContext micSource systemSource).
Proof. open_component; keeps_same hooks. Qed.

Lemma mixing_reported (pf : Platform) (w : World)
    (mic system : Outcome MediaStream) (audioContext micSource systemSource : Outcome unit) :
  reported w (exec (testFullAudioMixing mic system audioContext micSource systemSource) pf w)
  = Some (match first_failure mic system audioContext micSource systemSource with
          | Some e => ("❌ Audio mixing failed: " ^^ error_message e, Severity.error)
          | None => ("✅ Coach voice + Spotify music mixing confirmed",
                     Severity.success)
          end).
Proof.
  world w. unfold testFullAudioMixing, exec, reported, logged, bind, try_catch.
  mixing_cases mic system audioContext micSource systemSource.
Qed.

Lemma mixing_tracks (pf : Platform) (w : World)
    (mic system : Outcome MediaStream) (audioContext micSource systemSource : Outcome unit) :
  live_tracks (browser (exec (testFullAudioMixing mic system audioContext micSource
                                systemSource) pf w))
  = let failure := first_failure mic system audioContext micSource systemSource in
    match mic, system with
    | Throws _, _ => live_tracks (browser w)
    | Returns m, Throws _ => live_tracks (browser w) ∪ tracks_of m
    | Returns m, Returns s =>
        match failure with
        | Some _ => live_tracks (browser w) ∪ tracks_of m ∪ tracks_of s
        | None => (live_tracks (browser w) ∪ tracks_of m ∪ tracks_of s)
                    ∖ tracks_of m ∖ tracks_of s
        end
    end.
Proof.
  cbv zeta. world w. unfold testFullAudioMixing, exec, tracks_of, bind, try_catch.
  mixing_cases mic system audioContext micSource systemSource.
Qed.

Lemma mixing_contexts (pf : Platform) (w : World)
    (mic system : Outcome MediaStream) (audioContext micSource systemSource : Outcome unit) :
  audio_contexts (browser (exec (testFullAudioMixing mic system audioContext micSource
                                   systemSource) pf w))
  = let failure := first_failure mic system audioContext micSource systemSource in
    match mic, system, audioContext, failure with
    | Returns _, Returns _, Returns _, Some _ => S (audio_contexts (browser w))
    | _, _, _, _ => audio_contexts (browser w)
    end.
Proof.
  cbv zeta. world w. unfold testFullAudioMixing, exec, bind, try_catch.
  mixing_cases mic system audioContext micSource systemSource.
Qed.

(** X21.  [testFullAudioMixing] never throws and changes no hook but the
    log.  It reports the first platform call that fails, or else success.
    Tracks are stopped and the audio context is closed on success only:
    after a failure every stream already granted stays live and the
    audio context, if it was made, stays open. *)
Theorem mixing_probe_reports (pf : Platform) (w : World)
    (mic system : Outcome MediaStream) (context micSource systemSource : Outcome unit) :
  let probe := testFullAudioMixing mic system context micSource systemSource in
  let w' := exec probe pf w in
  let failure := first_failure mic system context micSource systemSource in
  result probe pf w = Normal tt
  /\ hooks w' = hooks w
  /\ reported w w'
     = Some (match failure with
             | Some e => ("❌ Audio mixing failed: " ^^ error_message e, Severity.error)
             | None => ("✅ Coach voice + Spotify music mixing confirmed",
                        Severity.success)
             end)
  /\ live_tracks (browser w')
     = match mic, system with
       | Throws _, _ => live_tracks (browser w)
       | Returns m, Throws _ => live_tracks (browser w) ∪ tracks_of m
       | Returns m, Returns s =>
           match failure with
           | Some _ => live_tracks (browser w) ∪ tracks_of m ∪ tracks_of s
           | None => (live_tracks (browser w) ∪ tracks_of m ∪ tracks_of s)
                       ∖ tracks_of m ∖ tracks_of s
           end
       end
  /\ audio_contexts (browser w')
     = match mic, system, context, failure with
       | Returns _, Returns _, Returns _, Some _ => S (audio_contexts (browser w))
       | _, _, _, _ => audio_contexts (browser w)
       end.
Proof.
  cbv zeta.
  split; [apply mixing_returns |].
  split; [apply mixing_same_hooks |].
  split; [apply mixing_reported |].
  split; [exact (mixing_tracks pf w mic system context micSource systemSource)
         | exact (mixing_contexts pf w mic system context micSource systemSource)].
Qed.

(** ** The PKCE values *)

Module Base64Shape.
Import Base64 Base64Facts.

Lemma char_at_url_char (n : N) : n < 64 -> url_char (char_at url_alphabet n) = true.
Proof.
  intros H. pattern n. apply for_all_sextets; [| exact H].
  each_sextet ltac:(vm_compute; reflexivity).
Qed.

Lemma encode_url_chars (s : string) :
  all_url_chars (encode url_alphabet false s) = true.
Proof.
  induction s as [| a | a b | a b c rest IH] using by_triples;
    [reflexivity | | |]; bounded.
  - destruct (sextets_lt (N_of_ascii a) 0 0) as (S0 & S1 & _); [lia..|].
    cbn [encode all_url_chars]. rewrite !char_at_url_char by assumption. reflexivity.
  - destruct (sextets_lt (N_of_ascii a) (N_of_ascii b) 0) as (S0 & S1 & S2 & _); [lia..|].
    cbn [encode all_url_chars]. rewrite !char_at_url_char by assumption. reflexivity.
  - destruct (sextets_lt (N_of_ascii a) (N_of_ascii b) (N_of_ascii c))
      as (S0 & S1 & S2 & S3); [lia..|].
    cbn [encode all_url_chars]. rewrite !char_at_url_char, IH by assumption.
    reflexivity.
Qed.

Lemma url_char_unreserved (c : ascii) : url_char c = true -> is_unreserved c = true.
Proof.
  destruct c as [[] [] [] [] [] [] [] []]; vm_compute; intros H;
    first [reflexivity | discriminate H].
Qed.

End Base64Shape.

Lemma base64url_url_chars (bytes : list byte) : all_url_chars (base64url bytes) = true.
Proof. apply Base64Shape.encode_url_chars. Qed.

Lemma encodeURIComponent_url_chars (s : string) :
  all_url_chars s = true -> encodeURIComponent s = s.
Proof.
  induction s as [|c s IH]; [reflexivity |].
  cbn [all_url_chars encodeURIComponent]. intros H.
  apply andb_prop in H as [Hc Hs].
  rewrite (Base64Shape.url_char_unreserved c Hc), (IH Hs). reflexivity.
Qed.

Lemma verifier_length (pf : Platform) (w : World) :
  String.length (base64url (next_random pf w)) = 43%nat.
Proof. reflexivity. Qed.

(** X22.  The code verifier [generateCodeVerifier] makes has 43
    characters, whatever the random octets are, and it and the challenge
    consist of letters, digits, [-] and [_] only, so that
    [encodeURIComponent] would leave them as they are. *)
Theorem verifier_has_43_url_characters (pf : Platform) (w : World) :
  exists verifier challenge : string,
    result generateCodeVerifier pf w = Normal verifier
    /\ result (generateCodeChallenge verifier) pf w = Normal challenge
    /\ String.length verifier = 43%nat
    /\ all_url_chars verifier = true
    /\ all_url_chars challenge = true
    /\ encodeURIComponent verifier = verifier
    /\ encodeURIComponent challenge = challenge.
Proof.
  exists (base64url (next_random pf w)),
         (base64url (sha256 pf (TextEncoder_encode (base64url (next_random pf w))))).
  unfold result. rewrite generateCodeVerifier_spec, generateCodeChallenge_spec.
  split; [reflexivity |]. split; [reflexivity |].
  split; [apply verifier_length |].
  split; [apply base64url_url_chars |].
  split; [apply base64url_url_chars |].
  split; apply encodeURIComponent_url_chars, base64url_url_chars.
Qed.

(** ** From Login to the exchange *)

Lemma mount_calls (pf : Platform) (w : World) (answer : Outcome Response) :
  network_calls (emitted w (exec (mount answer) pf w))
  = match exchange_inputs w with
    | Some (code, verifier) => [token_request code (origin pf ^^ pathname pf) verifier]
    | None => []
    end.
Proof.
  world w. open_callback. callback_cases answer; since; reflexivity.
Qed.

(** X23.  The verifier Login stores is the one the next load proves
    itself with.  Login navigates to the authorization URL with the
    digest of a fresh verifier as the challenge; when the provider sends
    the browser back with a code, the page sends one token request, and
    that request carries the code and the very verifier whose digest the
    authorization URL carried. *)
Theorem login_verifier_reaches_exchange (pf : Platform) (w : World) (query code : string)
    (answer : Outcome Response) :
  let verifier := base64url (next_random pf w) in
  let challenge := base64url (sha256 pf (TextEncoder_encode verifier)) in
  let w1 := exec authenticate pf w in
  let back := page_load (sessionStorage (browser w1)) query in
  code_pending code back ->
  last (emitted w w1) = Some (Navigate (authUrl (origin pf ^^ pathname pf) challenge))
  /\ network_calls (emitted back (exec (mount answer) pf back))
     = [token_request code (origin pf ^^ pathname pf) verifier].
Proof.
  cbv zeta. intros (Hcode & Hne & Herror).
  destruct (authenticate_spec pf w) as (_ & Hstorage & Hemitted & _).
  split; [rewrite Hemitted; reflexivity |].
  rewrite mount_calls. unfold exchange_inputs, stored_verifier.
  rewrite Herror, Hcode.
  destruct code as [|c code]; [congruence |].
  cbn [page_load fresh_browser browser sessionStorage].
  rewrite Hstorage, lookup_insert_eq.
  pose proof (verifier_length pf w) as Hlength.
  destruct (base64url (next_random pf w)) as [|v verifier]; [discriminate Hlength |].
  reflexivity.
Qed.

Lemma login_verifier_reaches_exchange_witness :
  let w := page_load ∅ EmptyString in
  let w1 := exec authenticate sample_platform w in
  let back := page_load (sessionStorage (browser w1)) "?code=abc123" in
  code_pending "abc123" back
  /\ network_calls (emitted back (exec (mount (Throws denied)) sample_platform back))
     = [token_request "abc123" "http://localhost:3000/"
          (base64url (next_random sample_platform w))].
Proof.
  cbv zeta.
  assert (Hpending : code_pending "abc123"
            (page_load (sessionStorage (browser (exec authenticate sample_platform
                                                   (page_load ∅ EmptyString))))
               "?code=abc123")).
  { split; [reflexivity | split; [discriminate | reflexivity]]. }
  split; [exact Hpending |].
  exact (proj2 (login_verifier_reaches_exchange sample_platform (page_load ∅ EmptyString)
                  "?code=abc123" "abc123" (Throws denied) Hpending)).
Defined.

(** ** Connecting the player *)

Lemma initializePlayer_same_hooks (token : option string) (connected : Outcome bool) :
  keeps (same_on (fun w => (authStatus (component w), playback w,
                            accessToken (component w))))
    (initializePlayer token connected).
Proof.
  open_component;
    keeps_same (fun w => (authStatus (component w), playback w,
                          accessToken (component w))).
Qed.

Lemma initializePlayer_reported (pf : Platform) (w : World) (token : string)
    (connected : Outcome bool) :
  token <> EmptyString ->
  let w' := exec (initializePlayer (Some token) connected) pf w in
  reported w w'
  = Some (match connected with
          | Returns true =>
              ("✅ Connected to Spotify Web Player (official pattern)", Severity.success)
          | Returns false => ("❌ Failed to connect", Severity.error)
          | Throws _ =>
              ("Initializing Spotify Web Player (official pattern)...", Severity.info)
          end)
  /\ List.filter (fun e => match e with PlayerConnect _ => true | _ => false end)
       (emitted w w')
     = [PlayerConnect (List.length (players (browser w)))].
Proof.
  intros Hne. apply truthy_nonempty in Hne.
  world w. unfold initializePlayer. rewrite Hne.
  unfold exec, reported, logged, emitted, bind, new_Player, addListener, read, modify,
    and_then.
  destruct connected as [[]|e];
    lazy -[alter list_alter app List.length str_cat drop last List.filter];
    since; split; reflexivity.
Qed.

(** X24.  The outcome of [connect] is only logged.  Given a token,
    [initializePlayer] installs the new player as the player of the
    component before it connects, and calls [connect] once; whether the
    connection succeeds, fails or is rejected, the player stays
    installed, and the status, the playback state and the credential are
    as before.  A rejection is not even logged. *)
Theorem connect_outcome_is_only_logged (pf : Platform) (w : World) (token : string)
    (connected : Outcome bool) :
  token <> EmptyString ->
  let w' := exec (initializePlayer (Some token) connected) pf w in
  player (component w') = Some (List.length (players (browser w)))
  /\ authStatus (component w') = authStatus (component w)
  /\ playback w' = playback w
  /\ accessToken (component w') = accessToken (component w)
  /\ reported w w'
     = Some (match connected with
             | Returns true =>
                 ("✅ Connected to Spotify Web Player (official pattern)",
                  Severity.success)
             | Returns false => ("❌ Failed to connect", Severity.error)
             | Throws _ =>
                 ("Initializing Spotify Web Player (official pattern)...", Severity.info)
             end)
  /\ List.filter (fun e => match e with PlayerConnect _ => true | _ => false end)
       (emitted w w')
     = [PlayerConnect (List.length (players (browser w)))].
Proof.
  cbv zeta. intros Hne.
  destruct (initializePlayer_spec pf w token connected Hne) as (Hplayer & _).
  pose proof (initializePlayer_same_hooks (Some token) connected pf w) as Hsame.
  unfold same_on in Hsame.
  destruct (initializePlayer_reported pf w token connected Hne) as (Hreported & Hconnect).
  split; [exact Hplayer |].
  split; [exact (f_equal (fun x => fst (fst x)) Hsame) |].
  split; [exact (f_equal (fun x => snd (fst x)) Hsame) |].
  split; [exact (f_equal snd Hsame) |].
  split; [exact Hreported | exact Hconnect].
Qed.

Lemma connect_outcome_is_only_logged_witness :
  let w := page_load ∅ EmptyString in
  let w' := exec (initializePlayer (Some "tok") (Returns false)) sample_platform w in
  "tok" <> EmptyString
  /\ player (component w') = Some 0%nat
  /\ reported w w' = Some ("❌ Failed to connect", Severity.error).
Proof.
  cbv zeta.
  assert (Hne : "tok" <> EmptyString) by discriminate.
  split; [exact Hne |].
  destruct (connect_outcome_is_only_logged sample_platform (page_load ∅ EmptyString)
              "tok" (Returns false) Hne) as (Hplayer & _ & _ & _ & Hreported & _).
  split; [exact Hplayer | exact Hreported].
Defined.
